(** * iis: token bucket, edge toggles and chain pagination

    A shallow embedding of the storage core of the iis repository:

    - [driver]: the [TokenBucket] rate limiter of the storage driver
      (package driver, [NewTokenBucket] and [TokenBucket.Consume]);
    - [mv]: the [Article] record and the [Cmd] tags (cmd/ch/mv/mv.go);
    - [dal]: the social-graph operations ([FollowUser], [BlockUser],
      [LikeArticle], [insertChainOrUpdate]) and chain pagination
      ([GetFollowingList]) of package dal.

    Go's [int64] is modelled as [Z] with the wrap-around written out,
    [float64] as Rocq's primitive binary64 floats, [time.Time] as a number
    of nanoseconds, Go maps as [gmap], and the store as a [gmap] from keys
    to decoded records. *)

From Stdlib Require Import ZArith Lia Ascii String Floats SpecFloat FloatOps.
From stdpp Require Import base gmap strings list pretty sorting.

Local Open Scope Z_scope.

(** ** Machine integers *)

Module Int64.

Definition min_int : Z := - 2 ^ 63.
Definition max_int : Z := 2 ^ 63 - 1.

Definition in_range (z : Z) : Prop := min_int <= z <= max_int.

(** Two's complement wrap-around of an exact result. *)
Definition wrap (z : Z) : Z := (z + 2 ^ 63) mod 2 ^ 64 - 2 ^ 63.

Definition add (a b : Z) : Z := wrap (a + b).
Definition sub (a b : Z) : Z := wrap (a - b).
Definition mul (a b : Z) : Z := wrap (a * b).

(** Go's integer division truncates toward zero. *)
Definition quot (a b : Z) : Z := wrap (Z.quot a b).

End Int64.

(** ** float64 conversions

    [float64(x)] for an [int64] rounds to nearest even; [int64(f)] truncates
    toward zero.  For a value that [int64] cannot hold Go leaves the result
    to the implementation; amd64's conversion instruction yields the minimum
    integer, which is what [to_int64] returns. *)

Module Float64.

Definition of_int64 (z : Z) : float :=
  SF2Prim (binary_normalize 53 1024 z 0 false).

Definition trunc (f : float) : option Z :=
  match Prim2SF f with
  | S754_zero _ => Some 0
  | S754_finite s m e =>
      let mag := match e with
                 | Zneg p => Z.pos m / 2 ^ Z.pos p
                 | _ => Z.pos m * 2 ^ e
                 end in
      Some (if s then - mag else mag)
  | S754_infinity _ | S754_nan => None
  end.

Definition to_int64 (f : float) : Z :=
  match trunc f with
  | Some z =>
      if (Int64.min_int <=? z) && (z <=? Int64.max_int) then z
      else Int64.min_int
  | None => Int64.min_int
  end.

End Float64.

(** ** package time *)

Module time.

(** A [Time] is an instant in nanoseconds, a [Duration] an [int64] count
    of nanoseconds. *)
Definition Time := Z.
Definition Duration := Z.

Definition Millisecond : Duration := 1000000.
Definition Second : Duration := 1000000000.

(** [t.Sub(u)] saturates at the largest and smallest duration. *)
Definition Sub (t u : Time) : Duration :=
  Z.max Int64.min_int (Z.min Int64.max_int (t - u)).

Definition Add (t : Time) (d : Duration) : Time := t + d.

(** [t.Unix()]: whole seconds since the epoch. *)
Definition Unix (t : Time) : Z := t / Second.

(** [time.Unix(sec, 0)]. *)
Definition of_unix (sec : Z) : Time := sec * Second.

(** [t.After(u)]. *)
Definition After (t u : Time) : bool := u <? t.

End time.

(** ** package driver: the token bucket *)

Module driver.

Record TokenBucket := mkTokenBucket {
  speed : Z;        (* bytes per second *)
  capacity : Z;     (* bytes *)
  maxCapacity : Z;
  timeout : time.Duration;
  lastConsume : time.Time
}.

(** [NewTokenBucket(config)] scans [config] with ["%dx%d/%d"] into
    [speed], [wait] and [max] and panics when that fails; the embedding
    starts from the three scanned numbers and the reading [now] of
    [time.Now()]. *)
Definition NewTokenBucket (speed wait max : Z) (now : time.Time) : TokenBucket :=
  {| speed := speed;
     capacity := 0;
     maxCapacity := max;
     timeout := Int64.mul wait time.Second;
     lastConsume := now |}.

(** How a call of [Consume] ends: through the [speed == 0] shortcut,
    through the branch that deducts at once, after sleeping for
    [sleepTime], or rejected. *)
Inductive outcome :=
| Unlimited
| Immediate
| Blocked (sleepTime : time.Duration)
| Throttled.


(** [ms := now.Sub(tb.lastConsume).Nanoseconds() / 1e6] *)
Definition elapsed_ms (tb : TokenBucket) (now : time.Time) : Z :=
  Int64.quot (time.Sub now (lastConsume tb)) 1000000.

(** The capacity after the refill step:
    [tb.capacity += ms * tb.speed / 1000], then the cap. *)
Definition refill (tb : TokenBucket) (now : time.Time) : Z :=
  let ms := elapsed_ms tb now in
  let c := Int64.add (capacity tb) (Int64.quot (Int64.mul ms (speed tb)) 1000) in
  if maxCapacity tb <? c then maxCapacity tb else c.

(** [sec := float64(n-tb.capacity) / float64(tb.speed)];
    [sleepTime := time.Duration(sec*1000) * time.Millisecond] *)
Definition sleepTime (n cap spd : Z) : time.Duration :=
  let sec := PrimFloat.div (Float64.of_int64 (Int64.sub n cap))
                           (Float64.of_int64 spd) in
  Int64.mul
    (Float64.to_int64 (PrimFloat.mul sec (Float64.of_int64 1000)))
    time.Millisecond.

(** [Consume]: [now] is the reading of [time.Now()] taken under the
    mutex.  The result holds the outcome and the bucket as the call
    leaves it when it unlocks. *)
Definition Consume (tb : TokenBucket) (n : Z) (now : time.Time)
  : outcome * TokenBucket :=
  if speed tb =? 0 then (Unlimited, tb)
  else
    let c := refill tb now in
    if n <=? c then
      (Immediate,
       {| speed := speed tb; capacity := Int64.sub c n;
          maxCapacity := maxCapacity tb; timeout := timeout tb;
          lastConsume := now |})
    else
      let st := sleepTime n c (speed tb) in
      if timeout tb <? st then
        (Throttled,
         {| speed := speed tb; capacity := c;
            maxCapacity := maxCapacity tb; timeout := timeout tb;
            lastConsume := lastConsume tb |})
      else
        (Blocked st,
         {| speed := speed tb; capacity := 0;
            maxCapacity := maxCapacity tb; timeout := timeout tb;
            lastConsume := time.Add now st |}).

(** A sequence of calls [(n, now)] on one bucket, in the order in which
    they take the mutex. *)
Fixpoint run (tb : TokenBucket) (calls : list (Z * time.Time)) : TokenBucket :=
  match calls with
  | [] => tb
  | (n, now) :: calls' => run (snd (Consume tb n now)) calls'
  end.




End driver.

(** ** package strconv and package strings *)

Module strconv.

Definition FormatBool (b : bool) : string :=
  if b then "true" else "false".

(** [FormatInt(i, 10)] *)
Definition FormatInt (i : Z) : string := pretty i.

End strconv.

Module strings.

Definition HasPrefix (s prefix : string) : bool := String.prefix prefix s.

(** [Split(s, sep)] for a one-byte separator: the pieces between the
    separators, one more than there are separators. *)
Fixpoint Split (s : string) (sep : ascii) : list string :=
  match s with
  | EmptyString => [EmptyString]
  | String c s' =>
      if Ascii.eqb c sep then EmptyString :: Split s' sep
      else match Split s' sep with
           | [] => [String c EmptyString]
           | p :: ps => String c p :: ps
           end
  end.

End strings.

(** ** package mv: records *)

Module mv.

Inductive error :=
| ErrNotExisted
| ErrAlreadyExisted
| Errorf (msg : string).

#[global] Instance error_eq_dec : EqDecision error.
Proof. solve_decision. Defined.

Definition Cmd := string.

Definition CmdNone : Cmd := "".
Definition CmdReply : Cmd := "inbox-reply".
Definition CmdMention : Cmd := "inbox-mention".
Definition CmdFollow : Cmd := "follow".
Definition CmdFollowed : Cmd := "followed".
Definition CmdBlock : Cmd := "block".
Definition CmdLike : Cmd := "like".
Definition CmdVote : Cmd := "vote".

(** The fields of [Article] that the chain code reads or writes; the
    remaining ones (content, author, reply pointers) are payload that it
    never touches. *)
Record Article := mkArticle {
  ID : string;
  Likes : Z;
  Media : string;
  Author : string;
  CreateTime : time.Time;
  NextID : string;
  Cmd_ : Cmd;
  Extras : gmap string string
}.

Record User := mkUser {
  UserID : string;
  Followers : Z;
  Followings : Z;
  Unread : Z
}.

(** [a.Extras[k]]: the empty string for a key that is not there. *)
Definition extra (a : Article) (k : string) : string :=
  default EmptyString (Extras a !! k).

End mv.

(** ** package dal: the executor, edge toggles and pagination *)

Module dal.
Import mv.

Inductive result (A : Type) :=
| Ok (a : A)
| Err (e : error).
Arguments Ok {A} a.
Arguments Err {A} e.

(** The kinds of chain root that [ik.NewID] is called with. *)
Inductive IDKind :=
| IDFollowing
| IDFollower
| IDBlacklist
| IDLike
| IDInbox
| IDTag.

(** Helpers that the dal code calls and whose bodies are not part of the
    sources at hand: the derivation of node keys from a pair of
    identities, [ik.NewID(kind, s).String()], the tag [CmdILike] of a
    like notification, and the two parsers that
    [GetFollowingList] applies to the halves of a follow value.  The
    development is parametric in them. *)
Class Helpers := {
  makeFollowID : string -> string -> string;
  makeFollowedID : string -> string -> string;
  makeBlockID : string -> string -> string;
  makeLikeID : string -> string -> string;
  NewID : IDKind -> string -> string;
  CmdILike : Cmd;
  atoi64 : string -> Z;
  atob : string -> bool
}.

(** The bodies started with [go func() { ... }()], by the function that
    starts them and the variables they capture. *)
Inductive goroutine :=
| GoFollowUser (from to : string) (following : bool)
| GoLikeArticle (from to : string) (liking : bool).

(** What the package-level handle [m] gives access to: the articles and
    the users of the store, and the goroutines started so far, oldest
    first. *)
Record state := mkState {
  db : gmap string Article;
  users : gmap string User;
  spawned : list goroutine
}.

Definition set_db (d : gmap string Article) (s : state) : state :=
  {| db := d; users := users s; spawned := spawned s |}.

Definition set_users (u : gmap string User) (s : state) : state :=
  {| db := db s; users := u; spawned := spawned s |}.

Definition spawn (g : goroutine) (s : state) : state :=
  {| db := db s; users := users s; spawned := spawned s ++ [g] |}.

(** Modelled from the spec: [GetArticle] is not among the sources.  The
    store maps a key to the record stored under it; a key with no record
    gives [ErrNotExisted]. *)
Definition GetArticle (s : state) (id : string) : result Article :=
  match db s !! id with
  | Some a => Ok a
  | None => Err ErrNotExisted
  end.

(** The requests that [NewRequest] is asked to build. *)
Inductive ArticleUpdate :=
| SetExtra (SetExtraKey SetExtraValue : string)
| IncDecLikes (inc : bool).

Inductive UserUpdate :=
| IncDecFollowings (inc : bool)
| IncDecFollowers (inc : bool)
| IncUnread.

Inductive Request :=
| DoInsertArticle (RootID : string) (a : Article)
| DoUpdateArticle (ID : string) (u : ArticleUpdate)
| DoUpdateUser (ID : string) (u : UserUpdate).

Record Response := mkResponse {
  OldExtraValue : string;
  RespArticle : option Article
}.

Definition no_response : Response :=
  {| OldExtraValue := EmptyString; RespArticle := None |}.

Definition set_NextID (next : string) (a : Article) : Article :=
  {| ID := ID a; Likes := Likes a; Media := Media a; Author := Author a;
     CreateTime := CreateTime a; NextID := next; Cmd_ := Cmd_ a;
     Extras := Extras a |}.

Definition set_Extras (x : gmap string string) (a : Article) : Article :=
  {| ID := ID a; Likes := Likes a; Media := Media a; Author := Author a;
     CreateTime := CreateTime a; NextID := NextID a; Cmd_ := Cmd_ a;
     Extras := x |}.

Definition set_Likes (n : Z) (a : Article) : Article :=
  {| ID := ID a; Likes := n; Media := Media a; Author := Author a;
     CreateTime := CreateTime a; NextID := NextID a; Cmd_ := Cmd_ a;
     Extras := Extras a |}.

Definition set_Media (m : string) (a : Article) : Article :=
  {| ID := ID a; Likes := Likes a; Media := m; Author := Author a;
     CreateTime := CreateTime a; NextID := NextID a; Cmd_ := Cmd_ a;
     Extras := Extras a |}.

(** The record of a chain root that has no record yet. *)
Definition new_root (id : string) : Article :=
  {| ID := id; Likes := 0; Media := EmptyString; Author := EmptyString;
     CreateTime := 0; NextID := EmptyString; Cmd_ := CmdNone;
     Extras := ∅ |}.

Definition delta (inc : bool) : Z := if inc then 1 else -1.

Definition update_user (u : UserUpdate) (x : User) : User :=
  match u with
  | IncDecFollowings inc =>
      {| UserID := UserID x; Followers := Followers x;
         Followings := Followings x + delta inc; Unread := Unread x |}
  | IncDecFollowers inc =>
      {| UserID := UserID x; Followers := Followers x + delta inc;
         Followings := Followings x; Unread := Unread x |}
  | IncUnread =>
      {| UserID := UserID x; Followers := Followers x;
         Followings := Followings x; Unread := Unread x + 1 |}
  end.

(** Modelled from the spec: the executor [Do] is not among the sources.
    Insert-node fails with "already exists" when a record is stored under
    the node's key; otherwise it reads the head of the root (none when
    the root has no record), sets the node's [NextID] to it, writes the
    node, and makes the node the head of the root.  Update-node fails
    with "not existed" when no record is stored under the id; otherwise
    it applies the mutation, persists the record and returns the previous
    value of the mutated field.  Update-user does the same on the user
    record. *)
Definition Do (r : Request) (s : state) : result Response * state :=
  match r with
  | DoInsertArticle root a =>
      match db s !! ID a with
      | Some _ => (Err ErrAlreadyExisted, s)
      | None =>
          let r0 := default (new_root root) (db s !! root) in
          let d1 := <[ID a := set_NextID (NextID r0) a]> (db s) in
          let d2 := <[root := set_NextID (ID a) r0]> d1 in
          (Ok no_response, set_db d2 s)
      end
  | DoUpdateArticle id (SetExtra k v) =>
      match db s !! id with
      | None => (Err ErrNotExisted, s)
      | Some a =>
          (Ok {| OldExtraValue := extra a k; RespArticle := None |},
           set_db (<[id := set_Extras (<[k := v]> (Extras a)) a]> (db s)) s)
      end
  | DoUpdateArticle id (IncDecLikes inc) =>
      match db s !! id with
      | None => (Err ErrNotExisted, s)
      | Some a =>
          let a' := set_Likes (Likes a + delta inc) a in
          (Ok {| OldExtraValue := EmptyString; RespArticle := Some a' |},
           set_db (<[id := a']> (db s)) s)
      end
  | DoUpdateUser id u =>
      match users s !! id with
      | None => (Err ErrNotExisted, s)
      | Some x => (Ok no_response, set_users (<[id := update_user u x]> (users s)) s)
      end
  end.

(** The shape the specification gives for the value of a toggle edge: a
    lowercase boolean, a comma, and a decimal number. *)
Definition toggle_encoded (v : string) : Prop :=
  exists (b : bool) (ts : Z),
    v = strconv.FormatBool b +:+ "," +:+ strconv.FormatInt ts.

Definition err_of (r : result Response) : option error :=
  match r with
  | Ok _ => None
  | Err e => Some e
  end.

Section WithHelpers.
Context `{Helpers}.

Definition IsFollowing (from to : string) (s : state) : bool :=
  match GetArticle s (makeFollowID from to) with
  | Ok p => strings.HasPrefix (extra p to) "true"
  | Err _ => false
  end.

Definition IsBlocking (from to : string) (s : state) : bool :=
  match GetArticle s (makeBlockID from to) with
  | Ok p => String.eqb (extra p "block") "true"
  | Err _ => false
  end.

Definition IsLiking (from to : string) (s : state) : bool :=
  match GetArticle s (makeLikeID from to) with
  | Ok p => String.eqb (extra p "like") "true"
  | Err _ => false
  end.

(** The value [FollowUser] sends as [SetExtraValue]; [now] is the
    reading of [time.Now()]. *)
Definition follow_value (following : bool) (now : time.Time) : string :=
  strconv.FormatBool following +:+ "," +:+ strconv.FormatInt (time.Unix now).

(** The body of [FollowUser] after the blocking check and up to its
    [return]: the local [updated], the returned error and the state.
    [now] and [created] are the two readings of [time.Now()]. *)
Definition FollowUser_body (from to : string) (following : bool)
    (now created : time.Time) (s : state) : bool * option error * state :=
  let followID := makeFollowID from to in
  let value := follow_value following now in
  match Do (DoUpdateArticle followID (SetExtra to value)) s with
  | (Err err, s1) =>
      if decide (err = ErrNotExisted) then
        let a := {| ID := followID; Likes := 0; Media := EmptyString;
                    Author := EmptyString; CreateTime := created;
                    NextID := EmptyString; Cmd_ := CmdFollow;
                    Extras := {[ to := value ]} |} in
        match Do (DoInsertArticle (NewID IDFollowing from) a) s1 with
        | (Err err', s2) => (true, Some err', s2)
        | (Ok _, s2) => (true, None, s2)
        end
      else (false, Some err, s1)
  | (Ok resp, s1) =>
      (negb (strings.HasPrefix (OldExtraValue resp) (strconv.FormatBool following)),
       None, s1)
  end.

(** [FollowUser]: the blocking check, the body, then the deferred
    function, which starts the goroutine when the call returns no
    error and [updated] is set. *)
Definition FollowUser (from to : string) (following : bool)
    (now created : time.Time) (s : state) : option error * state :=
  if following && IsBlocking to from s then
    (Some (Errorf "follow/to-blocked"), s)
  else
    let '(updated, E, s') := FollowUser_body from to following now created s in
    match E with
    | Some _ => (E, s')
    | None =>
        if updated then (E, spawn (GoFollowUser from to following) s')
        else (E, s')
    end.

Definition insertChainOrUpdate (aid chainid to : string) (cmd : Cmd)
    (value : bool) (created : time.Time) (s : state)
    : bool * option error * state :=
  let state_ := strconv.FormatBool value in
  match Do (DoUpdateArticle aid (SetExtra cmd state_)) s with
  | (Err err, s1) =>
      if decide (err = ErrNotExisted) then
        let a := {| ID := aid; Likes := 0; Media := EmptyString;
                    Author := EmptyString; CreateTime := created;
                    NextID := EmptyString; Cmd_ := cmd;
                    Extras := <[cmd := strconv.FormatBool value]>
                                {[ "to"%string := to ]} |} in
        let a := if decide (cmd = CmdLike) then
                   match GetArticle s1 to with
                   | Ok toa => set_Media (Media toa) a
                   | Err _ => a
                   end
                 else a in
        let '(r, s2) := Do (DoInsertArticle chainid a) s1 in
        (true, err_of r, s2)
      else (false, Some err, s1)
  | (Ok resp, s1) =>
      (negb (String.eqb (OldExtraValue resp) state_), None, s1)
  end.

Definition fromFollowToNotifyTo (from to : string) (following : bool)
    (created : time.Time) (s : state) : option error * state :=
  match Do (DoUpdateUser to (IncDecFollowers following)) s with
  | (Err err, s1) => (Some err, s1)
  | (Ok _, s1) =>
      let '(_, err, s2) :=
        insertChainOrUpdate (makeFollowedID to from) (NewID IDFollower to)
          from CmdFollowed following created s1 in
      (err, s2)
  end.

(** [BlockUser]; the error of the unfollow is logged and dropped. *)
Definition BlockUser (from to : string) (blocking : bool)
    (now created created' : time.Time) (s : state) : option error * state :=
  let s1 := if blocking then snd (FollowUser to from false now created s) else s in
  let '(_, err, s2) :=
    insertChainOrUpdate (makeBlockID from to) (NewID IDBlacklist from)
      to CmdBlock blocking created' s1 in
  (err, s2).

Definition LikeArticle (from to : string) (liking : bool)
    (created : time.Time) (s : state) : option error * state :=
  let '(updated, err, s1) :=
    insertChainOrUpdate (makeLikeID from to) (NewID IDLike from)
      to CmdLike liking created s in
  match err with
  | Some _ => (err, s1)
  | None =>
      if updated then (None, spawn (GoLikeArticle from to liking) s1)
      else (None, s1)
  end.

(** One goroutine run to its end on the state [s]: [created] is its
    reading of [time.Now()] and [gid] the key [ik.NewGeneralID()] gives
    it. *)
Definition run_goroutine (g : goroutine) (created : time.Time)
    (gid : string) (s : state) : state :=
  match g with
  | GoFollowUser from to following =>
      let s1 := snd (Do (DoUpdateUser from (IncDecFollowings following)) s) in
      if negb (strings.HasPrefix to "#") then
        snd (fromFollowToNotifyTo from to following created s1)
      else s1
  | GoLikeArticle from to liking =>
      match Do (DoUpdateArticle to (IncDecLikes liking)) s with
      | (Ok {| RespArticle := Some a |}, s1) =>
          if IsFollowing (Author a) from s1 && liking then
            let n := {| ID := gid; Likes := 0; Media := EmptyString;
                        Author := EmptyString; CreateTime := created;
                        NextID := EmptyString; Cmd_ := CmdILike;
                        Extras := <["article_id"%string := ID a]>
                                    {[ "from"%string := from ]} |} in
            let s2 := snd (Do (DoInsertArticle (NewID IDInbox (Author a)) n) s1) in
            snd (Do (DoUpdateUser (Author a) IncUnread) s2)
          else s1
      | (_, s1) => s1
      end
  end.

Record FollowingState := mkFollowingState {
  FID : string;
  Time : time.Time;
  Followed : bool;
  RevFollowed : bool;
  Liked : bool;
  Blocked : bool
}.

(** The entries of one key of a follow node: none unless the value
    splits at commas into exactly two parts. *)
Definition follow_entry (kv : string * string) : list FollowingState :=
  match strings.Split (snd kv) "," with
  | [p0; p1] =>
      [ {| FID := fst kv; Time := time.of_unix (atoi64 p1);
           Followed := atob p0; RevFollowed := false;
           Liked := false; Blocked := false |} ]
  | _ => []
  end.

(** What the loop body appends for the node [a]: a follow node gives
    the entries of its keys, in the order [range] visits them (Go
    leaves that order open; the embedding takes the order of
    [map_to_list]); any other node gives one entry. *)
Definition entries (a : Article) : list FollowingState :=
  if decide (Cmd_ a = CmdFollow) then
    flat_map follow_entry (map_to_list (Extras a))
  else
    [ {| FID := extra a "to"; Time := CreateTime a;
         Followed := false;
         RevFollowed := String.eqb (extra a "followed") "true";
         Liked := String.eqb (extra a "like") "true";
         Blocked := String.eqb (extra a "block") "true" |} ].

(** The walk budget: [time.Since(start).Seconds() > 0.2], on a reading
    in nanoseconds. *)
Definition over_budget (since : time.Duration) : bool := 200000000 <? since.

(** The loop of [GetFollowingList].  [ticks] holds the readings of
    [time.Since(start)], one for each pass through the loop body; real
    time passes the budget after finitely many passes, so a walk that
    has used all the readings stops as one that is over budget. *)
Fixpoint walk (s : state) (n : Z) (ticks : list time.Duration)
    (res : list FollowingState) (cursor : string)
    : list FollowingState * string :=
  if (Z.of_nat (length res) <? n) && strings.HasPrefix cursor "u/" then
    match ticks with
    | [] => (res, cursor)
    | since :: ticks' =>
        if over_budget since then (res, cursor)
        else
          match GetArticle s cursor with
          | Err _ => (res, cursor)
          | Ok a => walk s n ticks' (res ++ entries a) (NextID a)
          end
    end
  else (res, cursor).

(** The order [sort.Slice] is asked for: later times first. *)
Definition later_first (x y : FollowingState) : Prop := Time y <= Time x.

#[global] Instance later_first_dec x y : Decision (later_first x y).
Proof. unfold later_first. apply _. Defined.

(** [sort.Slice] with [res[i].Time.After(res[j].Time)].  Go's sort is
    not stable; the embedding fixes one sorted arrangement of the
    entries. *)
Definition sort_entries (res : list FollowingState) : list FollowingState :=
  merge_sort later_first res.

(** [GetFollowingList(chain, cursor, n)]; [chain] stands for
    [chain.String()]. *)
Definition GetFollowingList (chain cursor : string) (n : Z)
    (ticks : list time.Duration) (s : state)
    : list FollowingState * string :=
  let start :=
    if String.eqb cursor "" then
      match GetArticle s chain with
      | Err _ => None
      | Ok a => Some (NextID a)
      end
    else Some cursor in
  match start with
  | None => ([], EmptyString)
  | Some cursor =>
      let '(res, cursor') := walk s n ticks [] cursor in
      (sort_entries res, cursor')
  end.

End WithHelpers.

End dal.

(** ** Paths through the store *)

Module chains.
Import mv dal.

(** [path s c l c']: following [NextID] from the key [c] visits the
    records [l] of the store, in this order, and arrives at the key
    [c']. *)
Inductive path (s : state) : string -> list Article -> string -> Prop :=
| path_nil c : path s c [] c
| path_cons c a l c' :
    db s !! c = Some a -> path s (NextID a) l c' -> path s c (a :: l) c'.

End chains.

(** ** User tokens: [mv.MakeUserToken] and [dal.GetUserByToken] *)

Module token.
Import mv dal.

(** The two fields of [mv.User] that a token is made of. *)
Record User := mkUser {
  ID : string;
  Session : string
}.

(** What the token code takes from outside: the block cipher
    [config.Cfg.Blk] with the size of its blocks, the standard base64
    encoding, and the lookup [GetUserWithSettings] of a user record by
    its id at the time of the call. *)
Class Env := {
  BlockSize : nat;
  Encrypt : list ascii -> list ascii;
  Decrypt : list ascii -> list ascii;
  EncodeToString : list ascii -> string;
  DecodeString : string -> result (list ascii);
  GetUserWithSettings : string -> result User
}.

(** [copy(x[off:], src)]: as many bytes as fit. *)
Definition copy (off : nat) (src x : list ascii) : list ascii :=
  let n := Nat.min (length x - off) (length src) in
  take off x ++ take n src ++ drop (off + n) x.

(** [Blk.Encrypt(x[i:], x[i:])] and [Blk.Decrypt(x[i:], x[i:])]: the first
    block of [x[i:]] is transformed in place.  Both loops leave at least
    16 bytes in [x[i:]]. *)
Definition crypt_at `{Env} (f : list ascii -> list ascii) (i : nat)
    (x : list ascii) : list ascii :=
  take i x ++ f (take BlockSize (drop i x)) ++ drop (i + BlockSize) x.

(** [for i := 0; i <= len(x)-16; i += 8 { Blk.Encrypt(x[i:], x[i:]) }],
    from the index [i] on; [fuel] bounds the passes. *)
Fixpoint encrypt_from `{Env} (fuel : nat) (i : Z) (x : list ascii) : list ascii :=
  match fuel with
  | O => x
  | S fuel' =>
      if i <=? Z.of_nat (length x) - 16
      then encrypt_from fuel' (i + 8) (crypt_at Encrypt (Z.to_nat i) x)
      else x
  end.

(** [for i := len(x) - 16; i >= 0; i -= 8 { Blk.Decrypt(x[i:], x[i:]) }],
    from the index [i] on. *)
Fixpoint decrypt_from `{Env} (fuel : nat) (i : Z) (x : list ascii) : list ascii :=
  match fuel with
  | O => x
  | S fuel' =>
      if 0 <=? i
      then decrypt_from fuel' (i - 8) (crypt_at Decrypt (Z.to_nat i) x)
      else x
  end.

(** The bytes of a token before they are encrypted: the session, a zero
    byte, the id, and zero bytes up to a multiple of 8. *)
Definition plain (u : User) : list ascii :=
  let session := list_ascii_of_string (Session u) in
  let id := list_ascii_of_string (ID u) in
  let length0 := (length id + 1 + length session)%nat in
  let length1 := ((length0 + 7) / 8 * 8)%nat in
  let x := replicate length1 Ascii.zero in
  let x := copy 0 session x in
  copy (length session + 1) id x.

Definition MakeUserToken `{Env} (u : option User) : string :=
  match u with
  | None => EmptyString
  | Some u =>
      let x := plain u in
      EncodeToString (encrypt_from (length x) 0 x)
  end.

(** The first [sep] of [x]: what is before it and what is after it. *)
Fixpoint cut (x : list ascii) (sep : ascii) : option (list ascii * list ascii) :=
  match x with
  | [] => None
  | c :: x' =>
      if Ascii.eqb c sep then Some ([], x')
      else match cut x' sep with
           | Some (a, b) => Some (c :: a, b)
           | None => None
           end
  end.

(** [bytes.SplitN(x, sep, n)] for a one-byte separator and [n >= 0]: at
    most [n] pieces, the last one the unsplit rest. *)
Fixpoint SplitN (x : list ascii) (sep : ascii) (n : nat) : list (list ascii) :=
  match n with
  | O => []
  | S O => [x]
  | S n' =>
      match cut x sep with
      | None => [x]
      | Some (a, b) => a :: SplitN b sep n'
      end
  end.

Definition GetUserByToken `{Env} (tok : string) : result User :=
  if String.eqb tok "" then Err (Errorf "invalid token")
  else
    match DecodeString tok with
    | Err e => Err e
    | Ok x =>
        let x := decrypt_from (length x) (Z.of_nat (length x) - 16) x in
        match SplitN x Ascii.zero 3 with
        | session :: id :: _ =>
            match GetUserWithSettings (string_of_list_ascii id) with
            | Err e => Err e
            | Ok u =>
                if String.eqb (Session u) (string_of_list_ascii session)
                then Ok u
                else Err (Errorf "invalid token session")
            end
        | _ => Err (Errorf "invalid token format")
        end
    end.

(** What is expected of the environment: the cipher works on whole
    blocks, which fit in the 16 bytes that both loops leave, and
    decrypting undoes encrypting; decoding undoes encoding, and the
    encoding of some bytes is not the empty text. *)
Definition cipher_ok `{Env} : Prop :=
  (BlockSize <= 16)%nat /\
  forall b, length b = BlockSize ->
            length (Encrypt b) = BlockSize /\ Decrypt (Encrypt b) = b.

Definition encoding_ok `{Env} : Prop :=
  (forall x, DecodeString (EncodeToString x) = Ok x) /\
  (forall x, x <> [] -> EncodeToString x <> EmptyString).

End token.

(** ** package action: the guards of a request *)

Module action.

(** What the guards read from the request context [g]: the user set by
    the session middleware, if any, with what [IsMod()] and [Banned] give;
    the flag "ip-ok"; the text that ["%.1f"] prints for the remaining
    cool-down; the form value "answer" after [SoftTrunc]; and the two
    results of [ik.ParseToken]. *)
Record User := mkUser {
  IsMod : bool;
  Banned : bool
}.

Record Context := mkContext {
  user : option User;
  ip_ok : bool;
  remain : string;
  answer : string;
  tokenbuf : list ascii;
  tokenok : bool
}.

Definition checkIP (g : Context) : string :=
  match user g with
  | Some u => if IsMod u then EmptyString
              else if negb (ip_ok g) then "guard/cooling-down/" +:+ remain g +:+ "s"
              else EmptyString
  | None => if negb (ip_ok g) then "guard/cooling-down/" +:+ remain g +:+ "s"
            else EmptyString
  end.

Definition checkToken (g : Context) : string :=
  let ret := checkIP g in
  if negb (String.eqb ret "") then ret
  else
    match user g with
    | Some u =>
        if Banned u then "guard/id-not-existed"
        else if negb (tokenok g) then "guard/token-expired"
        else EmptyString
    | None =>
        if negb (tokenok g) then "guard/token-expired" else EmptyString
    end.

Definition alphabet1 : string := "0123456789acefhijklmnpqrtuvwxyz".
Definition alphabet2 : string := "oiz3asg7b9acefhijklmnpqrtuvwxyz".

(** [alphabet[t%31]], for the byte [t] of the token. *)
Definition pick (alphabet : string) (t : ascii) : ascii :=
  default Ascii.zero (String.get (N.to_nat (N_of_ascii t mod 31)) alphabet).

(** [if a >= 'A' && a <= 'Z' { a = a - 'A' + 'a' }], on bytes. *)
Definition lower (a : ascii) : ascii :=
  let n := N_of_ascii a in
  if (65 <=? n)%N && (n <=? 90)%N
  then ascii_of_N ((n + 256 - 65 + 97) mod 256)
  else a.

(** The loop over the answer from the index [i] on: [None] when
    [tokenbuf[i]] is out of range (the code panics), else whether
    [challengePassed] is left set.  The loop visits the bytes of the
    answer; a byte that starts a longer rune, the only case in which
    [range] skips an index, is no letter of either alphabet and ends the
    loop. *)
Fixpoint challenge (i : nat) (rest : list ascii) (buf : list ascii) : option bool :=
  match rest with
  | [] => Some true
  | a :: rest' =>
      match buf !! i with
      | None => None
      | Some t =>
          let a := lower a in
          if negb (Ascii.eqb a (pick alphabet1 t)) && negb (Ascii.eqb a (pick alphabet2 t))
          then Some false
          else challenge (S i) rest' buf
      end
  end.

(** [checkCaptcha]; [None] stands for the panic of an index out of
    range. *)
Definition checkCaptcha (g : Context) : option string :=
  let ret := checkIP g in
  if negb (String.eqb ret "") then Some ret
  else if negb (tokenok g) then Some "guard/token-expired"%string
  else
    let passed :=
      if Nat.eqb (String.length (answer g)) 4
      then challenge 0 (list_ascii_of_string (answer g)) (tokenbuf g)
      else Some false in
    match passed with
    | None => None
    | Some false => Some "guard/failed-captcha"%string
    | Some true =>
        if negb (tokenok g) then Some "guard/token-expired"%string
        else Some EmptyString
    end.

(** The upper-case form of an ASCII letter, to state that the answer is
    read without regard to case. *)
Definition upper (a : ascii) : ascii :=
  let n := N_of_ascii a in
  if (97 <=? n)%N && (n <=? 122)%N then ascii_of_N (n - 32) else a.

Definition to_upper (s : string) : string :=
  string_of_list_ascii (upper <$> list_ascii_of_string s).

Definition with_answer (g : Context) (ans : string) : Context :=
  {| user := user g; ip_ok := ip_ok g; remain := remain g; answer := ans;
     tokenbuf := tokenbuf g; tokenok := tokenok g |}.

(** [image[strings.Index(image, ",")+1:]]: what follows the first comma,
    or the whole text when it holds none. *)
Fixpoint after_comma_opt (s : string) : option string :=
  match s with
  | EmptyString => None
  | String c s' => if Ascii.eqb c "," then Some s' else after_comma_opt s'
  end.

Definition after_comma (s : string) : string :=
  default s (after_comma_opt s).

(** The loop of [writeImage] over the last 1024 bytes of the image, from
    the last one backward: [hash = hash*31 + uint64(image[i])] on 64
    bits. *)
Definition hash_step (hash : Z) (c : ascii) : Z :=
  (hash * 31 + Z.of_N (N_of_ascii c)) mod 2 ^ 64.

Definition tail_hash (image : string) : Z :=
  let bytes := list_ascii_of_string image in
  foldl hash_step 0 (reverse (drop (length bytes - 1024) bytes)).

(** The hash that names the file: the upper 52 bits of the loop's hash
    over the size of the decoded image in KiB on the lower 12. *)
Definition writeImage_hash (image : string) : Z :=
  let image := after_comma image in
  let size := Z.of_nat (String.length image) / 4 * 3 / 1024 in
  Z.lor (Z.land (tail_hash image) 0xfffffffffffff000) (Z.land size 0xfff).

(** The number of the directory: [hash%1024]. *)
Definition writeImage_dir (image : string) : Z :=
  writeImage_hash image mod 1024.

End action.

(** ** A concrete key scheme

    Modelled from the spec: the key derivations are not among the sources.
    Node keys are derived deterministically per relation type and identity
    pair, under the [u/] prefix; the parsers read a decimal number and a
    lowercase boolean. *)

Module fixture.
Import dal.

Fixpoint digits (s : string) (acc : Z) : option Z :=
  match s with
  | EmptyString => Some acc
  | String c s' =>
      let d := Z.of_nat (nat_of_ascii c) - 48 in
      if (0 <=? d) && (d <=? 9) then digits s' (10 * acc + d) else None
  end.

Definition parse_int (s : string) : Z :=
  match s with
  | String "-" s' => - default 0 (digits s' 0)
  | _ => default 0 (digits s 0)
  end.

Definition kind_name (k : IDKind) : string :=
  match k with
  | IDFollowing => "following"
  | IDFollower => "follower"
  | IDBlacklist => "blacklist"
  | IDLike => "like"
  | IDInbox => "inbox"
  | IDTag => "tag"
  end.

Definition helpers : Helpers := {|
  makeFollowID from to := "u/" +:+ from +:+ "/follow/" +:+ to;
  makeFollowedID from to := "u/" +:+ from +:+ "/followed/" +:+ to;
  makeBlockID from to := "u/" +:+ from +:+ "/block/" +:+ to;
  makeLikeID from to := "u/" +:+ from +:+ "/like/" +:+ to;
  NewID k s := kind_name k +:+ ":" +:+ s;
  CmdILike := "inbox-like";
  atoi64 := parse_int;
  atob s := String.eqb s "true"
|}.

Definition empty : state := {| db := ∅; users := ∅; spawned := [] |}.

Definition article (id next : string) (cmd : mv.Cmd)
    (x : list (string * string)) : mv.Article :=
  {| mv.ID := id; mv.Likes := 0; mv.Media := EmptyString;
     mv.Author := EmptyString; mv.CreateTime := 0; mv.NextID := next;
     mv.Cmd_ := cmd; mv.Extras := list_to_map x |}.

(** Clock readings: 100 and 200 seconds after the epoch. *)
Definition at100 : time.Time := 100 * time.Second.
Definition at200 : time.Time := 200 * time.Second.

(** bob has blocked alice. *)
Definition bob_blocked_alice : state :=
  snd (@BlockUser helpers "bob" "alice" true at100 at100 at100 empty).

(** alice has followed bob once, at 100 s, and then again at 200 s. *)
Definition followed_once : state :=
  snd (@FollowUser helpers "alice" "bob" true at100 at100 empty).

Definition followed_twice : state :=
  snd (@FollowUser helpers "alice" "bob" true at200 at200 followed_once).

Definition follow_node_once : mv.Article :=
  {| mv.ID := "u/alice/follow/bob"; mv.Likes := 0; mv.Media := EmptyString;
     mv.Author := EmptyString; mv.CreateTime := at100;
     mv.NextID := EmptyString; mv.Cmd_ := mv.CmdFollow;
     mv.Extras := {[ "bob"%string := "true,100"%string ]} |}.

(** One follow node that holds two edges. *)
Definition two_edges : mv.Article :=
  article "u/a" "following:a" mv.CmdFollow [("x", "true,1"); ("y", "false,2")].

Definition wide : state :=
  {| db := {[ "u/a"%string := two_edges ]}; users := ∅; spawned := [] |}.




(** A bucket of 1000 bytes per second with a one second timeout, after a
    first caller asked for 1000 bytes at time 0: that caller sleeps for
    a second, and [lastConsume] is one second ahead of the clock. *)
Definition tb_ahead : driver.TokenBucket :=
  driver.run (driver.NewTokenBucket 1000 1 1000000 0) [(1000, 0)].


(** alice likes the article p1. *)
Definition alice_likes_p1 : state :=
  snd (@LikeArticle helpers "alice" "p1" true at100 empty).

(** alice follows bob, then bob blocks alice. *)
Definition bob_blocked_alice_follower : state :=
  snd (@BlockUser helpers "bob" "alice" true at200 at200 at200 followed_once).

(** A follow node of alice that holds the edges to bob and to carol. *)
Definition shared_node : mv.Article :=
  article "u/alice/follow/bob" "following:alice" mv.CmdFollow
    [("bob", "false,1"); ("carol", "true,5")].

Definition shared : state :=
  {| db := {[ "u/alice/follow/bob"%string := shared_node ]};
     users := ∅; spawned := [] |}.


(** A stand-in environment for tokens: blocks of 16 bytes that the
    cipher reverses, the identity as the encoding, and a store that holds
    the one user alice. *)
Definition alice : token.User :=
  {| token.ID := "alice"; token.Session := "c2Vzc2lvbjAwMDE=" |}.

Definition token_env : token.Env := {|
  token.BlockSize := 16;
  token.Encrypt := reverse;
  token.Decrypt := reverse;
  token.EncodeToString := string_of_list_ascii;
  token.DecodeString s := Ok (list_ascii_of_string s);
  token.GetUserWithSettings id :=
    if String.eqb id "alice" then Ok alice else Err mv.ErrNotExisted
|}.

(** A user whose id and session fill less than one block. *)
Definition short_user : token.User :=
  {| token.ID := "al"; token.Session := "s1" |}.

(** A request with a live token, outside a cool-down, whose answer spells
    the first four bytes of the token: 0, 10, 31 and 41 pick "0", "a",
    "0" and "a". *)
Definition good_request : action.Context :=
  {| action.user := None; action.ip_ok := true; action.remain := "0.0";
     action.answer := "0a0a";
     action.tokenbuf := [ascii_of_nat 0; ascii_of_nat 10; ascii_of_nat 31;
                         ascii_of_nat 41; ascii_of_nat 200];
     action.tokenok := true |}.

(** alice and bob are registered; bob has seven followers. *)
Definition registered : state :=
  {| db := ∅;
     users := <[ "alice"%string := {| mv.UserID := "alice"; mv.Followers := 0;
                                       mv.Followings := 0; mv.Unread := 0 |} ]>
              {[ "bob"%string := {| mv.UserID := "bob"; mv.Followers := 7;
                                    mv.Followings := 0; mv.Unread := 0 |} ]};
     spawned := [] |}.

End fixture.

(** * Properties of the token bucket *)

Module driver_spec.
Import driver fixture.

Lemma wrap_in_range z : Int64.in_range z -> Int64.wrap z = z.
Proof.
  unfold Int64.in_range, Int64.wrap, Int64.min_int, Int64.max_int.
  intros Hz. rewrite Z.mod_small; lia.
Qed.

Lemma quot_sign x k :
  0 < k ->
  (0 <= x -> 0 <= x ÷ k <= x) /\ (x <= 0 -> x <= x ÷ k <= 0).
Proof.
  intros Hk. split; intros Hx.
  - rewrite Z.quot_div_nonneg by lia. split.
    + apply Z.div_pos; lia.
    + apply Z.div_le_upper_bound; nia.
  - replace x with (- - x) by lia.
    rewrite Z.quot_opp_l by lia.
    rewrite Z.quot_div_nonneg by lia.
    assert (0 <= - x / k) by (apply Z.div_pos; lia).
    assert (- x / k <= - x) by (apply Z.div_le_upper_bound; nia).
    lia.
Qed.

Lemma quot_in_range x k : 0 < k -> Int64.in_range x -> Int64.in_range (x ÷ k).
Proof.
  intros Hk Hx. destruct (quot_sign x k Hk) as [Hp Hn].
  unfold Int64.in_range, Int64.min_int, Int64.max_int in *.
  destruct (Z.le_ge_cases 0 x); [specialize (Hp ltac:(lia)) | specialize (Hn ltac:(lia))]; lia.
Qed.

Lemma Sub_in_range t u : Int64.in_range (t - u) -> time.Sub t u = t - u.
Proof. unfold time.Sub, Int64.in_range. lia. Qed.

(** The refill never leaves more than [maxCapacity]. *)
Lemma refill_le_max tb now : refill tb now <= maxCapacity tb.
Proof. unfold refill. case_match; lia. Qed.

(** The refill step with exact arithmetic, when nothing overflows. *)
Lemma refill_exact tb now :
  let ms := (now - lastConsume tb) ÷ 1000000 in
  let c := capacity tb + (ms * speed tb) ÷ 1000 in
  Int64.in_range (now - lastConsume tb) ->
  Int64.in_range (ms * speed tb) ->
  Int64.in_range c ->
  refill tb now = if maxCapacity tb <? c then maxCapacity tb else c.
Proof.
  intros ms c Hd Hm Hc. unfold refill, elapsed_ms, Int64.quot, Int64.mul, Int64.add.
  rewrite Sub_in_range by done.
  rewrite (wrap_in_range (_ ÷ 1000000)) by (apply quot_in_range; [lia | done]).
  fold ms. rewrite (wrap_in_range (ms * _)) by done.
  rewrite (wrap_in_range (_ ÷ 1000)) by (apply quot_in_range; [lia | done]).
  fold c. by rewrite (wrap_in_range c).
Qed.

(** C7, as stated, fails: with [lastConsume] one second ahead of [now]
    the elapsed time is negative and the refill takes the capacity from
    0 to -1000. *)
Lemma refill_decreases_when_clock_behind :
  time.Sub 0 (lastConsume tb_ahead) = -1000000000 /\
  capacity tb_ahead = 0 /\
  refill tb_ahead 0 = -1000.
Proof. vm_compute. done. Qed.

(** C7 (amended): the refilled capacity never exceeds [maxCapacity]; as
    long as nothing overflows and the speed is not negative, the refill
    has the sign of the elapsed time: with a clock that has not moved
    backward the capacity stays at least [min capacity maxCapacity], and
    with a clock that has moved backward the capacity does not grow (it
    may shrink). *)
Theorem refill_capped_and_signed tb now :
  Int64.in_range (now - lastConsume tb) ->
  Int64.in_range ((now - lastConsume tb) ÷ 1000000 * speed tb) ->
  Int64.in_range
    (capacity tb + ((now - lastConsume tb) ÷ 1000000 * speed tb) ÷ 1000) ->
  0 <= speed tb ->
  refill tb now <= maxCapacity tb /\
  (lastConsume tb <= now ->
     Z.min (capacity tb) (maxCapacity tb) <= refill tb now) /\
  (now <= lastConsume tb -> refill tb now <= capacity tb).
Proof.
  intros Hd Hm Hc Hs. split; [apply refill_le_max |].
  rewrite refill_exact by done.
  set (d := now - lastConsume tb) in *.
  destruct (quot_sign d 1000000 ltac:(lia)) as [Hp Hn].
  set (ms := d ÷ 1000000) in *.
  destruct (quot_sign (ms * speed tb) 1000 ltac:(lia)) as [Hp' Hn'].
  split; intros Ht.
  - assert (0 <= ms * speed tb) by (specialize (Hp ltac:(lia)); nia).
    specialize (Hp' ltac:(lia)). case_match; lia.
  - assert (ms * speed tb <= 0) by (specialize (Hn ltac:(lia)); nia).
    specialize (Hn' ltac:(lia)). case_match; lia.
Qed.

Lemma refill_capped_and_signed_witness :
  refill tb_ahead 500000000 <= maxCapacity tb_ahead /\
  (lastConsume tb_ahead <= 500000000 ->
     Z.min (capacity tb_ahead) (maxCapacity tb_ahead) <= refill tb_ahead 500000000) /\
  (500000000 <= lastConsume tb_ahead -> refill tb_ahead 500000000 <= capacity tb_ahead).
Proof.
  apply (refill_capped_and_signed tb_ahead 500000000);
    vm_compute; try split; congruence.
Defined.







(** The refill of a fresh bucket before a millisecond has passed: 0, or
    [maxCapacity] when that is negative. *)
Lemma refill_fresh speed wait max t0 :
  refill (NewTokenBucket speed wait max t0) t0 = Z.min 0 max.
Proof.
  unfold refill, elapsed_ms, NewTokenBucket; simpl.
  replace (time.Sub t0 t0) with 0 by (unfold time.Sub; rewrite Z.sub_diag; done).
  change (Int64.quot 0 1000000) with 0. change (Int64.mul 0 speed) with 0.
  change (Int64.quot 0 1000) with 0. change (Int64.add 0 0) with 0.
  case_match; lia.
Qed.

(** C10: a fresh bucket with a positive speed holds no tokens, and a
    first [Consume(n)] with [n > 0] at the instant of construction never
    takes the branch that deducts at once: it is rejected when the wait
    computed for the deficit exceeds the timeout, and otherwise sleeps
    for exactly that wait, leaving capacity 0 and [lastConsume] advanced
    by the wait. *)
Theorem first_Consume_not_immediate speed wait max t0 n :
  0 < speed -> 0 < n ->
  let tb := NewTokenBucket speed wait max t0 in
  let st := sleepTime n (Z.min 0 max) speed in
  capacity tb = 0 /\
  fst (Consume tb n t0) <> Immediate /\
  Consume tb n t0 =
    if timeout tb <? st
    then (Throttled,
          {| speed := speed; capacity := Z.min 0 max; maxCapacity := max;
             timeout := timeout tb; lastConsume := t0 |})
    else (Blocked st,
          {| speed := speed; capacity := 0; maxCapacity := max;
             timeout := timeout tb; lastConsume := time.Add t0 st |}).
Proof.
  intros Hs Hn tb st.
  assert (Consume tb n t0 =
    if timeout tb <? st
    then (Throttled,
          {| speed := speed; capacity := Z.min 0 max; maxCapacity := max;
             timeout := timeout tb; lastConsume := t0 |})
    else (Blocked st,
          {| speed := speed; capacity := 0; maxCapacity := max;
             timeout := timeout tb; lastConsume := time.Add t0 st |})) as Hc.
  { unfold Consume. subst tb st. rewrite refill_fresh. cbn [driver.speed NewTokenBucket
      driver.maxCapacity driver.timeout driver.lastConsume].
    destruct (Z.eqb_spec speed 0) as [| _]; [lia |].
    destruct (Z.leb_spec n (Z.min 0 max)); [lia |].
    done. }
  split; [done |]. split; [| done].
  rewrite Hc. by case_match.
Qed.

Lemma first_Consume_not_immediate_witness :
  capacity (NewTokenBucket 1000 1 1000000 0) = 0 /\
  fst (Consume (NewTokenBucket 1000 1 1000000 0) 500 0) <> Immediate /\
  Consume (NewTokenBucket 1000 1 1000000 0) 500 0 =
    (Blocked 500000000,
     {| speed := 1000; capacity := 0; maxCapacity := 1000000;
        timeout := 1000000000; lastConsume := 500000000 |}).
Proof.
  pose proof (first_Consume_not_immediate 1000 1 1000000 0 500
                ltac:(lia) ltac:(lia)) as (H0 & H1 & H2).
  split; [exact H0 |]. split; [exact H1 |].
  rewrite H2. vm_compute. reflexivity.
Defined.

End driver_spec.

(** * Properties of the edge toggles and of pagination *)

Module dal_spec.
Import mv dal.

Section WithHelpers.
Context `{Helpers}.

(** C1: when the target has blocked the actor, a follow returns the
    error "follow/to-blocked", which is neither of the executor's
    errors, and leaves the whole state as it was: no record is written
    and no goroutine is started. *)
Theorem FollowUser_blocked from to now created s :
  IsBlocking to from s = true ->
  FollowUser from to true now created s
    = (Some (Errorf "follow/to-blocked"), s) /\
  Errorf "follow/to-blocked" <> ErrNotExisted /\
  Errorf "follow/to-blocked" <> ErrAlreadyExisted.
Proof.
  intros Hb. unfold FollowUser. rewrite Hb. simpl. done.
Qed.

(** ** Pagination *)






(** ** Edge toggles *)

Lemma follow_value_prefix following now :
  strings.HasPrefix (follow_value following now)
    (strconv.FormatBool following) = true.
Proof. by destruct following. Qed.


(** What the body of [FollowUser] does to the store: [updated] is set
    unless the stored value already starts with the boolean; the node
    under the follow key then holds the new value for [to]; nothing
    but that node and the root of the chain changes. *)
Lemma FollowUser_body_spec from to following now created s :
  (db s !! makeFollowID from to = None ->
   NewID IDFollowing from <> makeFollowID from to) ->
  exists s1 p1,
    FollowUser_body from to following now created s =
      (match db s !! makeFollowID from to with
       | Some p => negb (strings.HasPrefix (extra p to)
                           (strconv.FormatBool following))
       | None => true
       end, None, s1) /\
    db s1 !! makeFollowID from to = Some p1 /\
    Extras p1 !! to = Some (follow_value following now) /\
    users s1 = users s /\ spawned s1 = spawned s /\
    (forall k, k <> makeFollowID from to -> k <> NewID IDFollowing from ->
               db s1 !! k = db s !! k) /\
    (is_Some (db s !! makeFollowID from to) ->
     forall k, k <> makeFollowID from to -> db s1 !! k = db s !! k).
Proof.
  intros Hroot. unfold FollowUser_body, Do.
  destruct (db s !! makeFollowID from to) as [p |] eqn:Hp.
  - eexists _, _. split; [reflexivity |]. simpl.
    rewrite lookup_insert_eq. split; [reflexivity |]. simpl.
    rewrite lookup_insert_eq.
    split_and!; try done; intros; by rewrite ?lookup_insert_ne.
  - specialize (Hroot eq_refl).
    rewrite decide_True by done. cbn [ID]. rewrite Hp.
    eexists _, _. split; [reflexivity |]. simpl.
    rewrite lookup_insert_ne, lookup_insert_eq by done.
    split; [reflexivity |]. simpl.
    rewrite lookup_singleton_eq.
    split_and!; try done; first [by intros [? ?] | intros; by rewrite !lookup_insert_ne].
Qed.

(** A follow that is not vetoed returns no error, leaves the new value
    under the follow key, and starts its goroutine exactly when
    [updated] is set. *)
Lemma FollowUser_spec from to following now created s :
  following && IsBlocking to from s = false ->
  (db s !! makeFollowID from to = None ->
   NewID IDFollowing from <> makeFollowID from to) ->
  exists s1 p1,
    FollowUser from to following now created s = (None, s1) /\
    db s1 !! makeFollowID from to = Some p1 /\
    Extras p1 !! to = Some (follow_value following now) /\
    users s1 = users s /\
    spawned s1 =
      (if fst (fst (FollowUser_body from to following now created s))
       then spawned s ++ [GoFollowUser from to following]
       else spawned s) /\
    (forall k, k <> makeFollowID from to -> k <> NewID IDFollowing from ->
               db s1 !! k = db s !! k) /\
    (is_Some (db s !! makeFollowID from to) ->
     forall k, k <> makeFollowID from to -> db s1 !! k = db s !! k).
Proof.
  intros Hb Hroot. unfold FollowUser. rewrite Hb.
  destruct (FollowUser_body_spec from to following now created s Hroot)
    as (s1 & p1 & -> & Hp1 & Hx & Hu & Hsp & Hfr & Hfr').
  cbn [fst]. case_match.
  - exists (spawn (GoFollowUser from to following) s1), p1.
    split_and!; try done. simpl. by rewrite Hsp.
  - by exists s1, p1.
Qed.


(** C3 (amended): a follow that re-applies the boolean already stored
    returns no error and starts no goroutine; the boolean stored for
    the edge stays the same, but the value is written again and holds
    the timestamp of this call; no other record changes. *)
Theorem FollowUser_same_value_rewrites_timestamp
    from to following now created s p :
  following && IsBlocking to from s = false ->
  db s !! makeFollowID from to = Some p ->
  strings.HasPrefix (extra p to) (strconv.FormatBool following) = true ->
  exists s1 p1,
    FollowUser from to following now created s = (None, s1) /\
    spawned s1 = spawned s /\ users s1 = users s /\
    db s1 !! makeFollowID from to = Some p1 /\
    Extras p1 !! to = Some (follow_value following now) /\
    strings.HasPrefix (follow_value following now)
      (strconv.FormatBool following) = true /\
    (forall k, k <> makeFollowID from to -> db s1 !! k = db s !! k).
Proof.
  intros Hb Hp Hpre.
  destruct (FollowUser_spec from to following now created s)
    as (s1 & p1 & Hr & Hp1 & Hx & Hu & Hsp & _ & Hfr); [done | congruence |].
  destruct (FollowUser_body_spec from to following now created s)
    as (s1' & p1' & Hbody & _); [congruence |].
  rewrite Hbody, Hp, Hpre in Hsp. cbn in Hsp.
  exists s1, p1. split_and!; try done.
  - apply follow_value_prefix.
  - apply Hfr. by rewrite Hp.
Qed.


Lemma FollowUser_stores_encoded from to following now created s s' :
  FollowUser from to following now created s = (None, s') ->
  NewID IDFollowing from <> makeFollowID from to ->
  exists a, db s' !! makeFollowID from to = Some a /\
            Extras a !! to = Some (follow_value following now) /\
            toggle_encoded (follow_value following now).
Proof.
  intros Hr Hroot.
  destruct (following && IsBlocking to from s) eqn:Hb.
  { unfold FollowUser in Hr. by rewrite Hb in Hr. }
  destruct (FollowUser_spec from to following now created s Hb (fun _ => Hroot))
    as (s1 & p1 & Hr' & Hp1 & Hx & _).
  rewrite Hr' in Hr. injection Hr as <-.
  exists p1. split_and!; try done. by exists following, (time.Unix now).
Qed.



End WithHelpers.

(** ** The theorems at work on the concrete key scheme *)

Import fixture.

Lemma FollowUser_blocked_witness :
  @FollowUser helpers "alice" "bob" true at200 at200 bob_blocked_alice
    = (Some (Errorf "follow/to-blocked"), bob_blocked_alice) /\
  Errorf "follow/to-blocked" <> ErrNotExisted /\
  Errorf "follow/to-blocked" <> ErrAlreadyExisted.
Proof.
  apply (@FollowUser_blocked helpers "alice" "bob" at200 at200 bob_blocked_alice).
  vm_compute. reflexivity.
Defined.


(** C3, as stated, fails: alice follows bob at 100 s and again at 200 s.
    The second call re-applies the stored boolean (it returns no error
    and starts no goroutine), and the stored value goes from "true,100"
    to "true,200". *)
Lemma FollowUser_same_value_changes_stored :
  db followed_once !! "u/alice/follow/bob" = Some follow_node_once /\
  Extras follow_node_once !! "bob" = Some "true,100" /\
  @FollowUser helpers "alice" "bob" true at200 at200 followed_once
    = (None, followed_twice) /\
  spawned followed_twice = spawned followed_once /\
  (fun a => Extras a !! "bob") <$> (db followed_twice !! "u/alice/follow/bob")
    = Some (Some "true,200").
Proof. vm_compute. done. Qed.

Lemma FollowUser_same_value_rewrites_timestamp_witness :
  exists s1 p1,
    @FollowUser helpers "alice" "bob" true at200 at200 followed_once = (None, s1) /\
    spawned s1 = spawned followed_once /\ users s1 = users followed_once /\
    db s1 !! "u/alice/follow/bob" = Some p1 /\
    Extras p1 !! "bob" = Some "true,200" /\
    strings.HasPrefix "true,200" "true" = true /\
    (forall k, k <> "u/alice/follow/bob" -> db s1 !! k = db followed_once !! k).
Proof.
  apply (@FollowUser_same_value_rewrites_timestamp helpers
           "alice" "bob" true at200 at200 followed_once follow_node_once);
    vm_compute; reflexivity.
Defined.






End dal_spec.

(** * Further properties of the token bucket *)

Module driver_invariants.
Import driver fixture.

Lemma Consume_config tb n now :
  speed (snd (Consume tb n now)) = speed tb /\
  maxCapacity (snd (Consume tb n now)) = maxCapacity tb /\
  timeout (snd (Consume tb n now)) = timeout tb.
Proof. unfold Consume. by repeat case_match. Qed.

(** X1: no sequence of calls changes the configuration of a bucket: its
    speed, its maximum capacity and its timeout stay those it was built
    with. *)
Theorem run_keeps_config calls : forall tb,
  speed (run tb calls) = speed tb /\
  maxCapacity (run tb calls) = maxCapacity tb /\
  timeout (run tb calls) = timeout tb.
Proof.
  induction calls as [| [n now] calls IH]; intros tb; [done |].
  cbn [run]. destruct (IH (snd (Consume tb n now))) as (-> & -> & ->).
  apply Consume_config.
Qed.

(** X2: a bucket of speed 0 is unlimited: every call of any sequence is
    allowed, whatever it asks for and whenever, and the bucket is never
    written. *)
Theorem run_unlimited tb calls :
  speed tb = 0 ->
  run tb calls = tb /\
  Forall (fun c => Consume tb (fst c) (snd c) = (Unlimited, tb)) calls.
Proof.
  intros Hs.
  assert (forall n now, Consume tb n now = (Unlimited, tb)) as Hc.
  { intros n now. unfold Consume. by rewrite Hs. }
  split.
  - induction calls as [| [n now] calls IH]; [done |]. cbn [run]. by rewrite Hc.
  - apply Forall_forall. intros [n now] _. apply Hc.
Qed.

Lemma run_unlimited_witness :
  run (NewTokenBucket 0 1 100 0) [(5000, 0); (70000, 1)] = NewTokenBucket 0 1 100 0 /\
  Forall (fun c => Consume (NewTokenBucket 0 1 100 0) (fst c) (snd c)
                   = (Unlimited, NewTokenBucket 0 1 100 0))
         [(5000, 0); (70000, 1)].
Proof. apply (run_unlimited (NewTokenBucket 0 1 100 0)). reflexivity. Defined.

(** X3: used by one caller after another on a clock that is not behind
    [lastConsume], with a speed and a request that are not negative and
    no overflow in the refill, a call keeps the capacity between 0 and
    [maxCapacity]. *)
Theorem Consume_keeps_capacity_bounds tb n now :
  0 <= capacity tb <= maxCapacity tb ->
  Int64.in_range (maxCapacity tb) ->
  0 <= n -> 0 <= speed tb ->
  lastConsume tb <= now ->
  Int64.in_range (now - lastConsume tb) ->
  Int64.in_range ((now - lastConsume tb) ÷ 1000000 * speed tb) ->
  Int64.in_range
    (capacity tb + ((now - lastConsume tb) ÷ 1000000 * speed tb) ÷ 1000) ->
  0 <= capacity (snd (Consume tb n now)) <= maxCapacity tb.
Proof.
  intros Hc Hmax Hn Hs Ht Hd Hm Ha.
  assert (0 <= refill tb now <= maxCapacity tb) as Hr.
  { rewrite driver_spec.refill_exact by done.
    destruct (driver_spec.quot_sign (now - lastConsume tb) 1000000 ltac:(lia)) as [Hp _].
    specialize (Hp ltac:(lia)).
    destruct (driver_spec.quot_sign
                ((now - lastConsume tb) ÷ 1000000 * speed tb) 1000 ltac:(lia)) as [Hp' _].
    specialize (Hp' ltac:(nia)). case_match; lia. }
  unfold Consume. destruct (speed tb =? 0); [done |].
  destruct (Z.leb_spec n (refill tb now)); cbn [snd capacity].
  - unfold Int64.sub. rewrite driver_spec.wrap_in_range; [lia |].
    unfold Int64.in_range, Int64.min_int, Int64.max_int in *. lia.
  - case_match; cbn [snd capacity]; lia.
Qed.

Lemma Consume_keeps_capacity_bounds_witness :
  0 <= capacity (snd (Consume (NewTokenBucket 1000 1 1000000 0) 500 2000000000))
    <= maxCapacity (NewTokenBucket 1000 1 1000000 0).
Proof.
  apply (Consume_keeps_capacity_bounds (NewTokenBucket 1000 1 1000000 0) 500 2000000000);
    vm_compute; try split; congruence.
Defined.

End driver_invariants.

(** * Further properties of the edge toggles *)

Module dal_edges.
Import mv dal fixture.

Section WithHelpers.
Context `{Helpers}.

Lemma set_Extras_same (p : Article) k v :
  Extras p !! k = Some v -> set_Extras (<[k := v]> (Extras p)) p = p.
Proof. intros Hk. destruct p. unfold set_Extras. cbn in *. by rewrite insert_id. Qed.

Lemma set_db_same s : set_db (db s) s = s.
Proof. by destruct s. Qed.

(** What [insertChainOrUpdate] does to the store.  [updated] is set
    unless the node holds the same text under the key of the relation;
    afterwards the node holds the new text there; the users and the
    started goroutines are as before, and so is every record but the node
    and, when the node is new, the root of the chain. *)
Lemma insertChainOrUpdate_spec aid chainid to cmd value created s :
  (db s !! aid = None -> chainid <> aid) ->
  exists s1 p1,
    insertChainOrUpdate aid chainid to cmd value created s =
      (match db s !! aid with
       | Some p => negb (String.eqb (extra p cmd) (strconv.FormatBool value))
       | None => true
       end, None, s1) /\
    db s1 !! aid = Some p1 /\
    Extras p1 !! (cmd : string) = Some (strconv.FormatBool value) /\
    users s1 = users s /\ spawned s1 = spawned s /\
    (forall k, k <> aid -> k <> chainid -> db s1 !! k = db s !! k) /\
    (is_Some (db s !! aid) -> forall k, k <> aid -> db s1 !! k = db s !! k).
Proof.
  intros Hroot. unfold insertChainOrUpdate.
  destruct (db s !! aid) as [p |] eqn:Hp; unfold Do at 1; rewrite Hp.
  - eexists _, _. split; [reflexivity |]. cbn.
    rewrite lookup_insert_eq. split; [reflexivity |]. cbn.
    rewrite lookup_insert_eq.
    split_and!; try done; intros; by rewrite ?lookup_insert_ne.
  - specialize (Hroot eq_refl). rewrite decide_True by done.
    match goal with
    | |- context [Do (DoInsertArticle chainid ?x) s] => set (a := x)
    end.
    assert (ID a = aid /\ Extras a !! cmd = Some (strconv.FormatBool value))
      as [Hid Hx].
    { subst a. repeat case_match; cbn; by rewrite lookup_insert_eq. }
    unfold Do. rewrite Hid, Hp. eexists _, _. split; [reflexivity |]. cbn.
    rewrite lookup_insert_ne, lookup_insert_eq by done.
    split; [reflexivity |]. cbn.
    split_and!; try done; first [by intros [? ?] | intros; by rewrite !lookup_insert_ne].
Qed.

(** X4: once a call of [insertChainOrUpdate] has gone through, the same
    call again reports no change, returns no error and leaves the whole
    state as it is. *)
Theorem insertChainOrUpdate_idempotent
    aid chainid to cmd value created created' s updated s1 :
  insertChainOrUpdate aid chainid to cmd value created s = (updated, None, s1) ->
  chainid <> aid ->
  insertChainOrUpdate aid chainid to cmd value created' s1 = (false, None, s1).
Proof.
  intros Hr Hne.
  destruct (insertChainOrUpdate_spec aid chainid to cmd value created s (fun _ => Hne))
    as (s1' & p1 & Hr' & Hp1 & Hx & _).
  rewrite Hr' in Hr. injection Hr as _ <-.
  unfold insertChainOrUpdate, Do. rewrite Hp1. cbn [OldExtraValue]. unfold extra. rewrite Hx. cbn [default].
  rewrite String.eqb_refl. cbn [negb].
  by rewrite set_Extras_same, insert_id, set_db_same.
Qed.

(** X5: once a call of [insertChainOrUpdate] has gone through, a call
    with the opposite boolean reports a change and leaves the opposite
    text under the key of the relation; no record but the node changes. *)
Theorem insertChainOrUpdate_toggle
    aid chainid to cmd value created created' s updated s1 :
  insertChainOrUpdate aid chainid to cmd value created s = (updated, None, s1) ->
  chainid <> aid ->
  exists s2 p2,
    insertChainOrUpdate aid chainid to cmd (negb value) created' s1 = (true, None, s2) /\
    db s2 !! aid = Some p2 /\
    Extras p2 !! (cmd : string) = Some (strconv.FormatBool (negb value)) /\
    (forall k, k <> aid -> db s2 !! k = db s1 !! k).
Proof.
  intros Hr Hne.
  destruct (insertChainOrUpdate_spec aid chainid to cmd value created s (fun _ => Hne))
    as (s1' & p1 & Hr' & Hp1 & Hx & _).
  rewrite Hr' in Hr. injection Hr as _ <-.
  destruct (insertChainOrUpdate_spec aid chainid to cmd (negb value) created' s1'
              (fun _ => Hne))
    as (s2 & p2 & Hr2 & Hp2 & Hx2 & _ & _ & _ & Hfr).
  exists s2, p2. rewrite Hr2, Hp1. unfold extra. rewrite Hx. cbn [default].
  split_and!; try done.
  - by destruct value.
  - apply Hfr. by rewrite Hp1.
Qed.

(** The records after [BlockUser]: the block node holds the boolean under
    "block", and every record but that node and the root of the blacklist
    is as the unfollow left it. *)
Lemma BlockUser_node from to blocking now created created' s s' :
  BlockUser from to blocking now created created' s = (None, s') ->
  NewID IDBlacklist from <> makeBlockID from to ->
  exists p,
    db s' !! makeBlockID from to = Some p /\
    Extras p !! "block" = Some (strconv.FormatBool blocking) /\
    (forall k, k <> makeBlockID from to -> k <> NewID IDBlacklist from ->
       db s' !! k =
       db (if blocking then snd (FollowUser to from false now created s) else s) !! k).
Proof.
  unfold BlockUser. intros Hr Hne.
  set (s1 := if blocking then _ else s) in *.
  destruct (insertChainOrUpdate_spec (makeBlockID from to) (NewID IDBlacklist from)
              to CmdBlock blocking created' s1 (fun _ => Hne))
    as (s2 & p & Hr' & Hp & Hx & _ & _ & Hfr & _).
  rewrite Hr' in Hr. injection Hr as <-. by exists p.
Qed.

(** X6: a follow or an unfollow that returns no error reads back:
    [IsFollowing] then gives the boolean that was written. *)
Theorem FollowUser_then_IsFollowing from to following now created s s' :
  FollowUser from to following now created s = (None, s') ->
  NewID IDFollowing from <> makeFollowID from to ->
  IsFollowing from to s' = following.
Proof.
  intros Hr Hroot.
  destruct (dal_spec.FollowUser_stores_encoded _ _ _ _ _ _ _ Hr Hroot)
    as (a & Ha & Hx & _).
  unfold IsFollowing, GetArticle, extra. rewrite Ha, Hx. by destruct following.
Qed.

(** X7: a block or an unblock that returns no error reads back:
    [IsBlocking] then gives the boolean that was written. *)
Theorem BlockUser_then_IsBlocking from to blocking now created created' s s' :
  BlockUser from to blocking now created created' s = (None, s') ->
  NewID IDBlacklist from <> makeBlockID from to ->
  IsBlocking from to s' = blocking.
Proof.
  intros Hr Hne.
  destruct (BlockUser_node _ _ _ _ _ _ _ _ Hr Hne) as (p & Hp & Hx & _).
  unfold IsBlocking, GetArticle, extra. rewrite Hp, Hx. by destruct blocking.
Qed.

(** X8: a like or an unlike that returns no error reads back: [IsLiking]
    then gives the boolean that was written. *)
Theorem LikeArticle_then_IsLiking from to liking created s s' :
  LikeArticle from to liking created s = (None, s') ->
  NewID IDLike from <> makeLikeID from to ->
  IsLiking from to s' = liking.
Proof.
  unfold LikeArticle. intros Hr Hne.
  destruct (insertChainOrUpdate_spec (makeLikeID from to) (NewID IDLike from)
              to CmdLike liking created s (fun _ => Hne))
    as (s1 & p & Hr' & Hp & Hx & _).
  rewrite Hr' in Hr. cbv beta iota zeta in Hr.
  assert (db s' = db s1) as Hdb.
  { match type of Hr with (if ?b then _ else _) = _ => destruct b end;
      by injection Hr as <-. }
  unfold IsLiking, GetArticle, extra. rewrite Hdb, Hp.
  change ("like"%string) with (CmdLike : string). rewrite Hx. by destruct liking.
Qed.

(** X9: after [from] has blocked [to], a follow of [from] by [to] is
    vetoed: it returns "follow/to-blocked" and changes nothing. *)
Theorem BlockUser_vetoes_follow
    from to now created created' now2 created2 s s' :
  BlockUser from to true now created created' s = (None, s') ->
  NewID IDBlacklist from <> makeBlockID from to ->
  FollowUser to from true now2 created2 s'
    = (Some (Errorf "follow/to-blocked"), s').
Proof.
  intros Hr Hne.
  destruct (BlockUser_node _ _ _ _ _ _ _ _ Hr Hne) as (p & Hp & Hx & _).
  unfold FollowUser, IsBlocking, GetArticle, extra. by rewrite Hp, Hx.
Qed.

(** X10: a block makes the blocked user unfollow the blocker: when the
    unfollow inside [BlockUser] goes through, [IsFollowing(to, from)] is
    false afterwards, whatever it was before. *)
Theorem BlockUser_unfollows from to now created created' s s' :
  BlockUser from to true now created created' s = (None, s') ->
  fst (FollowUser to from false now created s) = None ->
  NewID IDFollowing to <> makeFollowID to from ->
  NewID IDBlacklist from <> makeBlockID from to ->
  makeBlockID from to <> makeFollowID to from ->
  NewID IDBlacklist from <> makeFollowID to from ->
  IsFollowing to from s' = false.
Proof.
  intros Hr Hok Hroot Hne Hbf Hrf.
  destruct (BlockUser_node _ _ _ _ _ _ _ _ Hr Hne) as (p & _ & _ & Hfr).
  destruct (dal_spec.FollowUser_spec to from false now created s eq_refl (fun _ => Hroot))
    as (s1 & p1 & Hr1 & Hp1 & Hx1 & _).
  rewrite Hr1 in Hfr. cbn [snd] in Hfr.
  unfold IsFollowing, GetArticle, extra.
  rewrite Hfr, Hp1, Hx1 by done. reflexivity.
Qed.

(** X11: an unfollow for a pair that has no stored value counts as a
    change: it returns no error, leaves "false,<seconds>" for the pair and
    starts the goroutine that moves the counters. *)
Theorem FollowUser_unfollow_without_edge from to now created s :
  (forall p, db s !! makeFollowID from to = Some p -> Extras p !! to = None) ->
  NewID IDFollowing from <> makeFollowID from to ->
  exists s' p',
    FollowUser from to false now created s = (None, s') /\
    spawned s' = spawned s ++ [GoFollowUser from to false] /\
    db s' !! makeFollowID from to = Some p' /\
    Extras p' !! to = Some (follow_value false now).
Proof.
  intros Hnone Hroot.
  destruct (dal_spec.FollowUser_spec from to false now created s eq_refl (fun _ => Hroot))
    as (s1 & p1 & Hr1 & Hp1 & Hx1 & _ & Hsp & _).
  destruct (dal_spec.FollowUser_body_spec from to false now created s (fun _ => Hroot))
    as (s1' & p1' & Hb & _).
  rewrite Hb in Hsp. cbn [fst] in Hsp.
  exists s1, p1. split_and!; try done.
  destruct (db s !! makeFollowID from to) as [p |] eqn:Hp; [| done].
  unfold extra in Hsp. by rewrite (Hnone p eq_refl) in Hsp.
Qed.

(** X12: a follow written into a node that is already there changes the
    value of its own counterpart only: the values the node holds for
    other counterparts, its link to the next node, its tag and its
    creation time stay as they were. *)
Theorem FollowUser_keeps_other_edges from to following now created s p s' :
  db s !! makeFollowID from to = Some p ->
  FollowUser from to following now created s = (None, s') ->
  exists p',
    db s' !! makeFollowID from to = Some p' /\
    (forall k, k <> to -> Extras p' !! k = Extras p !! k) /\
    ID p' = ID p /\ NextID p' = NextID p /\ Cmd_ p' = Cmd_ p /\
    CreateTime p' = CreateTime p.
Proof.
  intros Hp. unfold FollowUser.
  destruct (following && IsBlocking to from s); [done |].
  unfold FollowUser_body, Do. rewrite Hp.
  intros Hr. eexists.
  assert (db s' = <[makeFollowID from to :=
                      set_Extras (<[to := follow_value following now]> (Extras p)) p]>
                    (db s)) as ->.
  { cbv beta iota zeta in Hr.
    match type of Hr with (if ?b then _ else _) = _ => destruct b end;
      by injection Hr as <-. }
  rewrite lookup_insert_eq. split; [reflexivity |]. cbn.
  split_and!; try done. intros k Hk. by rewrite lookup_insert_ne.
Qed.

End WithHelpers.

Lemma insertChainOrUpdate_idempotent_witness :
  insertChainOrUpdate "u/alice/like/p1" "like:alice" "p1" CmdLike true at200
     (snd (insertChainOrUpdate "u/alice/like/p1" "like:alice" "p1"
             CmdLike true at100 empty))
  = (false, None,
     snd (insertChainOrUpdate "u/alice/like/p1" "like:alice" "p1"
            CmdLike true at100 empty)).
Proof.
  apply (insertChainOrUpdate_idempotent "u/alice/like/p1" "like:alice" "p1"
           CmdLike true at100 at200 empty true); [by vm_compute | done].
Defined.

Lemma insertChainOrUpdate_toggle_witness :
  exists s2 p2,
    insertChainOrUpdate "u/alice/like/p1" "like:alice" "p1" CmdLike
       (negb true) at200
       (snd (insertChainOrUpdate "u/alice/like/p1" "like:alice" "p1"
               CmdLike true at100 empty)) = (true, None, s2) /\
    db s2 !! "u/alice/like/p1" = Some p2 /\
    Extras p2 !! (CmdLike : string) = Some (strconv.FormatBool (negb true)) /\
    (forall k, k <> "u/alice/like/p1" ->
       db s2 !! k =
       db (snd (insertChainOrUpdate "u/alice/like/p1" "like:alice" "p1"
                  CmdLike true at100 empty)) !! k).
Proof.
  apply (insertChainOrUpdate_toggle "u/alice/like/p1" "like:alice" "p1"
           CmdLike true at100 at200 empty true); [by vm_compute | done].
Defined.

Lemma FollowUser_then_IsFollowing_witness :
  @IsFollowing helpers "alice" "bob" followed_once = true.
Proof.
  apply (@FollowUser_then_IsFollowing helpers "alice" "bob" true at100 at100 empty);
    [by vm_compute | done].
Defined.

Lemma BlockUser_then_IsBlocking_witness :
  @IsBlocking helpers "bob" "alice" bob_blocked_alice = true.
Proof.
  apply (@BlockUser_then_IsBlocking helpers "bob" "alice" true at100 at100 at100 empty);
    [by vm_compute | done].
Defined.

Lemma LikeArticle_then_IsLiking_witness :
  @IsLiking helpers "alice" "p1" alice_likes_p1 = true.
Proof.
  apply (@LikeArticle_then_IsLiking helpers "alice" "p1" true at100 empty);
    [by vm_compute | done].
Defined.

Lemma BlockUser_vetoes_follow_witness :
  @FollowUser helpers "alice" "bob" true at200 at200 bob_blocked_alice
    = (Some (Errorf "follow/to-blocked"), bob_blocked_alice).
Proof.
  apply (@BlockUser_vetoes_follow helpers "bob" "alice" at100 at100 at100 at200 at200
           empty); [by vm_compute | done].
Defined.

Lemma BlockUser_unfollows_witness :
  @IsFollowing helpers "alice" "bob" bob_blocked_alice_follower = false.
Proof.
  apply (@BlockUser_unfollows helpers "bob" "alice" at200 at200 at200 followed_once);
    [by vm_compute | by vm_compute | done ..].
Defined.

Lemma FollowUser_unfollow_without_edge_witness :
  exists s' p',
    @FollowUser helpers "alice" "bob" false at100 at100 empty = (None, s') /\
    spawned s' = spawned empty ++ [GoFollowUser "alice" "bob" false] /\
    db s' !! "u/alice/follow/bob" = Some p' /\
    Extras p' !! "bob" = Some "false,100".
Proof.
  apply (@FollowUser_unfollow_without_edge helpers "alice" "bob" at100 at100 empty);
    [| done].
  intros p Hp. by vm_compute in Hp.
Defined.

Lemma FollowUser_keeps_other_edges_witness :
  exists p',
    db (snd (@FollowUser helpers "alice" "bob" true at200 at200 shared))
      !! "u/alice/follow/bob" = Some p' /\
    (forall k, k <> "bob" -> Extras p' !! k = Extras shared_node !! k) /\
    ID p' = ID shared_node /\ NextID p' = NextID shared_node /\
    Cmd_ p' = Cmd_ shared_node /\ CreateTime p' = CreateTime shared_node.
Proof.
  apply (@FollowUser_keeps_other_edges helpers "alice" "bob" true at200 at200 shared);
    by vm_compute.
Defined.

End dal_edges.

(** * Further properties of pagination *)

Module dal_walks.
Import mv dal fixture.

Section WithHelpers.
Context `{Helpers}.

Lemma later_first_total : Total later_first.
Proof. intros x y. unfold later_first. lia. Qed.

Lemma walk_no_prefix s n ticks res cursor :
  strings.HasPrefix cursor "u/" = false ->
  walk s n ticks res cursor = (res, cursor).
Proof. intros Hp. destruct ticks; simpl; rewrite Hp, andb_false_r; done. Qed.

(** The walk never skips a record and never visits one twice: what it
    adds to the entries it starts with are the entries of the records on
    the path from the cursor it is given to the cursor it returns. *)
Lemma walk_follows_chain s n ticks : forall res cursor res' cursor',
  walk s n ticks res cursor = (res', cursor') ->
  exists l, chains.path s cursor l cursor' /\ res' = res ++ flat_map entries l.
Proof.
  induction ticks as [| since ticks IH]; intros res cursor res' cursor'; simpl.
  - intros Hw. exists []. rewrite app_nil_r.
    case_match; injection Hw as <- <-; split; [constructor | done | constructor | done].
  - destruct (_ && _).
    2:{ intros [= <- <-]. exists []. rewrite app_nil_r. split; [constructor | done]. }
    destruct (over_budget since).
    { intros [= <- <-]. exists []. rewrite app_nil_r. split; [constructor | done]. }
    unfold GetArticle. destruct (db s !! cursor) as [a |] eqn:Ha.
    2:{ intros [= <- <-]. exists []. rewrite app_nil_r. split; [constructor | done]. }
    intros Hw. apply IH in Hw as (l & Hl & ->).
    exists (a :: l). split; [by econstructor |].
    cbn [flat_map]. by rewrite app_assoc.
Qed.

(** X13: the entries [GetFollowingList] returns are, up to their order,
    those of the records on the path from the cursor it starts at (the
    one it is given, or the head of the chain) to the cursor it returns:
    a page ends between two records, and resuming from the returned
    cursor neither skips nor repeats a record. *)
Theorem GetFollowingList_follows_chain chain cursor n ticks s res cursor' :
  GetFollowingList chain cursor n ticks s = (res, cursor') ->
  cursor <> "" \/ is_Some (db s !! chain) ->
  exists l,
    chains.path s
      (if String.eqb cursor "" then default "" (NextID <$> db s !! chain) else cursor)
      l cursor' /\
    res ≡ₚ flat_map entries l.
Proof.
  unfold GetFollowingList, GetArticle. intros Hr Hstart.
  assert (forall c, (let '(r, c') := walk s n ticks [] c in (sort_entries r, c'))
                    = (res, cursor') ->
                    exists l, chains.path s c l cursor' /\ res ≡ₚ flat_map entries l) as Hw.
  { intros c Hc. destruct (walk s n ticks [] c) as [r c'] eqn:Hwalk.
    injection Hc as <- <-. apply walk_follows_chain in Hwalk as (l & Hl & ->).
    exists l. split; [done |]. unfold sort_entries. by rewrite merge_sort_Permutation. }
  destruct (String.eqb_spec cursor "") as [-> | Hne]; [| by apply Hw].
  destruct Hstart as [| [a Ha]]; [done |]. rewrite Ha in Hr |- *. by apply Hw.
Qed.

(** X14: the entries [GetFollowingList] returns are in the order
    [sort.Slice] is asked for: no entry is followed by one with a later
    time. *)
Theorem GetFollowingList_sorted chain cursor n ticks s :
  Sorted later_first (fst (GetFollowingList chain cursor n ticks s)).
Proof.
  unfold GetFollowingList.
  destruct (if String.eqb cursor "" then _ else _) as [c |]; [| constructor].
  destruct (walk s n ticks [] c) as [r c']. cbn [fst].
  apply (@Sorted_merge_sort _ later_first _ later_first_total).
Qed.

(** ** Reading back a follow value *)

Lemma Split_not_nil s sep : strings.Split s sep <> [].
Proof. destruct s as [| c s]; simpl; [done |]. by repeat case_match. Qed.

Lemma Split_cons_single c s :
  c <> ","%char -> strings.Split s "," = [s] ->
  strings.Split (String c s) "," = [String c s].
Proof.
  intros Hc Hs. simpl. rewrite Hs.
  by destruct (Ascii.eqb_spec c ",").
Qed.

Lemma Split_app_comma s1 s2 :
  strings.Split s1 "," = [s1] ->
  strings.Split (s1 +:+ String "," s2) "," = s1 :: strings.Split s2 ",".
Proof.
  induction s1 as [| c s1 IH]; [done |]. simpl.
  destruct (Ascii.eqb_spec c ",") as [-> | Hc]; [done |].
  destruct (strings.Split s1 ",") as [| q qs] eqn:Hq.
  { by destruct (Split_not_nil s1 ","). }
  intros [= -> ->]. by rewrite IH.
Qed.

Lemma pretty_N_char_not_comma x : pretty_N_char x <> ","%char.
Proof. unfold pretty_N_char. by repeat case_match. Qed.

Lemma Split_pretty_N_go x : forall s,
  strings.Split s "," = [s] ->
  strings.Split (pretty_N_go x s) "," = [pretty_N_go x s].
Proof.
  induction (N.lt_wf_0 x) as [x _ IH]. intros s Hs.
  destruct (decide (x = 0%N)) as [-> | Hx]; [by rewrite pretty_N_go_0 |].
  rewrite pretty_N_go_step by lia. apply IH.
  - apply N.div_lt; lia.
  - apply Split_cons_single; [apply pretty_N_char_not_comma | done].
Qed.

(** The decimal text of an integer holds no comma. *)
Lemma Split_FormatInt z :
  strings.Split (strconv.FormatInt z) "," = [strconv.FormatInt z].
Proof.
  assert (forall p : positive,
            strings.Split (pretty (N.pos p)) "," = [pretty (N.pos p)]) as Hp.
  { intros p. unfold pretty, pretty_N. rewrite decide_False by done.
    by apply Split_pretty_N_go. }
  unfold strconv.FormatInt, pretty, pretty_Z. destruct z as [| p | p]; [done | apply Hp |].
  apply (Split_cons_single "-"); [done | apply Hp].
Qed.

(** A follow value splits at its comma into the boolean and the
    seconds. *)
Lemma Split_follow_value following now :
  strings.Split (follow_value following now) ","
  = [strconv.FormatBool following; strconv.FormatInt (time.Unix now)].
Proof.
  replace (follow_value following now)
    with (strconv.FormatBool following
          +:+ String "," (strconv.FormatInt (time.Unix now)))
    by (by destruct following).
  rewrite Split_app_comma by (by destruct following).
  by rewrite Split_FormatInt.
Qed.

(** X15: the first follow of an actor shows in the actor's list: on a
    store that holds neither the follow node nor the root of the actor's
    following chain, a follow that is not vetoed is listed by
    [GetFollowingList] on that chain as one entry, with the counterpart,
    the second the value was written at and the boolean as the two
    parsers read them back, and with no cursor left to resume from. *)
Theorem FollowUser_then_listed from to following now created n since ticks s :
  following && IsBlocking to from s = false ->
  db s !! makeFollowID from to = None ->
  db s !! NewID IDFollowing from = None ->
  NewID IDFollowing from <> makeFollowID from to ->
  strings.HasPrefix (makeFollowID from to) "u/" = true ->
  0 < n -> over_budget since = false ->
  GetFollowingList (NewID IDFollowing from) "" n (since :: ticks)
    (snd (FollowUser from to following now created s))
  = ([ {| FID := to;
          Time := time.of_unix (atoi64 (strconv.FormatInt (time.Unix now)));
          Followed := atob (strconv.FormatBool following);
          RevFollowed := false; Liked := false; Blocked := false |} ],
     EmptyString).
Proof.
  intros Hb Hnode Hrootn Hne Hpre Hn Hbud.
  unfold FollowUser. rewrite Hb. unfold FollowUser_body, Do. rewrite Hnode.
  rewrite decide_True by done. cbn [ID]. rewrite Hnode, Hrootn. cbn [default snd].
  unfold GetFollowingList, GetArticle. cbn [String.eqb db spawn set_db].
  rewrite lookup_insert_eq. cbn [NextID set_NextID new_root ID].
  cbn [walk length]. rewrite Hpre, Hbud.
  destruct (Z.ltb_spec (Z.of_nat 0) n); [| lia]. cbn [andb].
  unfold GetArticle, spawn, set_db. cbn [db].
  rewrite lookup_insert_ne, lookup_insert_eq by done.
  cbn [NextID set_NextID]. rewrite walk_no_prefix by done.
  unfold entries. cbn [Cmd_ set_NextID Extras]. rewrite decide_True by done.
  rewrite map_to_list_singleton. cbn [flat_map app].
  unfold follow_entry. cbn [fst snd]. rewrite Split_follow_value. reflexivity.
Qed.

End WithHelpers.

Lemma GetFollowingList_follows_chain_witness :
  exists l,
    chains.path wide "u/a" l "following:a" /\
    fst (@GetFollowingList helpers "following:a" "u/a" 1 [0] wide)
      ≡ₚ flat_map (@entries helpers) l.
Proof.
  apply (@GetFollowingList_follows_chain helpers "following:a" "u/a" 1 [0] wide);
    [by vm_compute | by left].
Defined.

Lemma FollowUser_then_listed_witness :
  @GetFollowingList helpers "following:alice" "" 10 [0; 0] followed_once
  = ([ {| FID := "bob"; Time := at100; Followed := true;
          RevFollowed := false; Liked := false; Blocked := false |} ],
     EmptyString).
Proof.
  apply (@FollowUser_then_listed helpers "alice" "bob" true at100 at100 10 0 [0] empty);
    by vm_compute.
Defined.

End dal_walks.

(** * Properties of user tokens *)

Module token_spec.
Import mv dal token fixture.

Section WithEnv.
Context `{Env}.

Lemma copy_at_start (src : list ascii) n z :
  (length src <= n)%nat ->
  copy 0 src (replicate n z) = src ++ replicate (n - length src) z.
Proof.
  intros Hn. unfold copy.
  rewrite take_0, app_nil_l, length_replicate, Nat.sub_0_r, Nat.min_r by lia.
  by rewrite take_ge, drop_replicate by lia.
Qed.

Lemma copy_after_zero (a src : list ascii) m z :
  (length src <= m)%nat ->
  copy (length a + 1) src (a ++ replicate (S m) z)
  = a ++ z :: src ++ replicate (m - length src) z.
Proof.
  intros Hm. unfold copy.
  rewrite length_app, length_replicate.
  replace (length a + S m - (length a + 1))%nat with m by lia.
  rewrite Nat.min_r by lia.
  rewrite (take_ge src) by lia.
  rewrite (take_app_add' a) by done.
  rewrite <- Nat.add_assoc, (drop_app_add' a) by done.
  cbn [replicate take drop Nat.add]. rewrite take_0, drop_replicate.
  by rewrite <- !app_assoc.
Qed.

(** Both copies fit, so the plain bytes are the session, a zero byte,
    the id, and the padding up to a multiple of 8. *)
Lemma plain_eq u :
  exists k pad,
    plain u = list_ascii_of_string (Session u) ++ Ascii.zero ::
              list_ascii_of_string (ID u) ++ replicate pad Ascii.zero /\
    length (plain u) = (8 * S k)%nat /\ (pad < 8)%nat.
Proof.
  unfold plain.
  generalize (list_ascii_of_string (Session u)) as se.
  generalize (list_ascii_of_string (ID u)) as id. intros id se. cbv zeta.
  pose proof (Nat.div_mod_eq (length id + 1 + length se + 7) 8) as Hd.
  pose proof (Nat.mod_upper_bound (length id + 1 + length se + 7) 8 ltac:(lia)) as Hm.
  remember ((length id + 1 + length se + 7) / 8)%nat as q eqn:Hq.
  destruct q as [| k]; [lia |]. clear Hq.
  exists k, (S k * 8 - (length id + 1 + length se))%nat.
  rewrite copy_at_start by lia.
  replace (S k * 8 - length se)%nat
    with (S (S k * 8 - length se - 1))%nat by lia.
  rewrite copy_after_zero by lia.
  replace (S k * 8 - length se - 1 - length id)%nat
    with (S k * 8 - (length id + 1 + length se))%nat by lia.
  split; [done |]. split; [| lia].
  rewrite length_app. cbn [length]. rewrite length_app, length_replicate. lia.
Qed.

(** One block transformed in place keeps the length, and decrypting a
    block at the place where it was encrypted restores the bytes. *)
Lemma crypt_at_Encrypt_length i x :
  cipher_ok -> (i + 16 <= length x)%nat ->
  length (crypt_at Encrypt i x) = length x.
Proof.
  intros [Hbs Hc] Hi. unfold crypt_at.
  destruct (Hc (take BlockSize (drop i x))) as [Hlen _].
  { rewrite length_take, length_drop. lia. }
  rewrite !length_app, Hlen, length_take, length_drop. lia.
Qed.

Lemma crypt_at_Decrypt_Encrypt i x :
  cipher_ok -> (i + 16 <= length x)%nat ->
  crypt_at Decrypt i (crypt_at Encrypt i x) = x.
Proof.
  intros [Hbs Hc] Hi. unfold crypt_at.
  destruct (Hc (take BlockSize (drop i x))) as [Hlen Hinv].
  { rewrite length_take, length_drop. lia. }
  assert (length (take i x) = i) as Hti by (rewrite length_take; lia).
  rewrite (take_app_length' (take i x)) by done.
  rewrite (drop_app_length' (take i x)) by done.
  rewrite (take_app_length' (Encrypt _)) by done.
  rewrite Hinv.
  rewrite (drop_app_add' (take i x)) by done.
  rewrite (drop_app_length' (Encrypt _)) by done.
  rewrite <- drop_drop, take_drop. apply take_drop.
Qed.

(** Decrypting from the last block down undoes encrypting from the block
    at [8 * j] up, as far as that block. *)
Lemma decrypt_encrypt_from (Hc : cipher_ok) m : forall j x fe fd,
  Z.of_nat (length x) = 8 * (Z.of_nat j + Z.of_nat m) + 8 ->
  (m <= fe)%nat ->
  decrypt_from (m + fd) (Z.of_nat (length x) - 16)
    (encrypt_from fe (8 * Z.of_nat j) x)
  = decrypt_from fd (8 * Z.of_nat j - 8) x.
Proof.
  induction m as [| m IH]; intros j x fe fd Hlen Hfe.
  - replace (encrypt_from fe (8 * Z.of_nat j) x) with x.
    { cbn [Nat.add]. f_equal. lia. }
    destruct fe as [| fe]; [done |]. cbn [encrypt_from].
    destruct (Z.leb_spec (8 * Z.of_nat j) (Z.of_nat (length x) - 16)); [lia | done].
  - destruct fe as [| fe]; [lia |]. cbn [encrypt_from].
    destruct (Z.leb_spec (8 * Z.of_nat j) (Z.of_nat (length x) - 16)); [| lia].
    assert (8 * j + 16 <= length x)%nat as Hi by lia.
    replace (Z.to_nat (8 * Z.of_nat j)) with (8 * j)%nat by lia.
    pose proof (crypt_at_Encrypt_length (8 * j) x Hc Hi) as Hl.
    replace (8 * Z.of_nat j + 8) with (8 * Z.of_nat (S j)) by lia.
    replace (S m + fd)%nat with (m + S fd)%nat by lia.
    rewrite <- Hl at 1. rewrite IH by lia.
    cbn [decrypt_from].
    destruct (Z.leb_spec 0 (8 * Z.of_nat (S j) - 8)); [| lia].
    replace (Z.to_nat (8 * Z.of_nat (S j) - 8)) with (8 * j)%nat by lia.
    rewrite crypt_at_Decrypt_Encrypt by done. f_equal. lia.
Qed.

(** The loop of [GetUserByToken] undoes the loop of [MakeUserToken] on
    bytes whose number is a multiple of 8. *)
Lemma decrypt_encrypt x k :
  cipher_ok -> length x = (8 * k)%nat ->
  decrypt_from (length (encrypt_from (length x) 0 x))
    (Z.of_nat (length (encrypt_from (length x) 0 x)) - 16)
    (encrypt_from (length x) 0 x) = x.
Proof.
  intros Hc Hk.
  assert (forall fe i y, 0 <= i ->
            length (encrypt_from fe i y) = length y) as Hlen.
  { induction fe as [| fe IH]; intros i y Hi; [done |]. cbn [encrypt_from].
    destruct (Z.leb_spec i (Z.of_nat (length y) - 16)); [| done].
    rewrite IH by lia. apply crypt_at_Encrypt_length; [done | lia]. }
  rewrite Hlen by done.
  destruct k as [| k].
  - destruct x; [done | simpl in Hk; lia].
  - replace (length x) with (k + (length x - k))%nat at 1 by lia.
    change 0 with (8 * Z.of_nat 0%nat).
    rewrite (decrypt_encrypt_from Hc k 0%nat) by lia.
    destruct (length x - k)%nat; [done |]. cbn [decrypt_from].
    by destruct (Z.leb_spec 0 (8 * Z.of_nat 0%nat - 8)); [lia |].
Qed.

(** Splitting the plain bytes at the zero bytes gives the session first
    and the id second. *)
Lemma cut_first (a b : list ascii) sep :
  sep ∉ a -> cut (a ++ sep :: b) sep = Some (a, b).
Proof.
  induction a as [| c a IH]; intros Ha; simpl.
  - by rewrite Ascii.eqb_refl.
  - apply not_elem_of_cons in Ha as [Hc Ha].
    destruct (Ascii.eqb_spec c sep); [congruence |]. by rewrite IH.
Qed.

Lemma cut_none (a : list ascii) sep : sep ∉ a -> cut a sep = None.
Proof.
  induction a as [| c a IH]; intros Ha; simpl; [done |].
  apply not_elem_of_cons in Ha as [Hc Ha].
  destruct (Ascii.eqb_spec c sep); [congruence |]. by rewrite IH.
Qed.

Lemma SplitN_plain (se id : list ascii) pad :
  Ascii.zero ∉ se -> Ascii.zero ∉ id ->
  exists rest,
    SplitN (se ++ Ascii.zero :: id ++ replicate pad Ascii.zero) Ascii.zero 3
    = se :: id :: rest.
Proof.
  intros Hse Hid. cbn [SplitN]. rewrite cut_first by done.
  destruct pad as [| pad]; cbn [replicate].
  - rewrite app_nil_r, cut_none by done. by exists [].
  - rewrite cut_first by done. by eexists.
Qed.

(** X16: a token reads back.  When the cipher decrypts what it encrypts
    and the encoding decodes what it encodes, and neither the session nor
    the id holds a zero byte, [GetUserByToken] on the token that
    [MakeUserToken] makes for a user looks up the record stored under
    that user's id; it returns that record when its session is the one of
    the token, and "invalid token session" when it is not. *)
Theorem GetUserByToken_MakeUserToken u u' :
  cipher_ok -> encoding_ok ->
  Ascii.zero ∉ list_ascii_of_string (Session u) ->
  Ascii.zero ∉ list_ascii_of_string (ID u) ->
  GetUserWithSettings (ID u) = Ok u' ->
  GetUserByToken (MakeUserToken (Some u)) =
    if String.eqb (Session u') (Session u) then Ok u'
    else Err (Errorf "invalid token session").
Proof.
  intros Hc [Hdec Hne] Hse Hid Hget.
  destruct (plain_eq u) as (k & pad & Hplain & Hlen & _).
  unfold GetUserByToken, MakeUserToken.
  assert (encrypt_from (length (plain u)) 0 (plain u) <> []) as Hnil.
  { intros Hnil. pose proof (decrypt_encrypt (plain u) (S k) Hc Hlen) as Hd.
    rewrite Hnil in Hd. cbn in Hd. rewrite <- Hd in Hlen. cbn in Hlen. lia. }
  destruct (String.eqb_spec (EncodeToString (encrypt_from (length (plain u)) 0 (plain u))) "")
    as [He | _]; [by destruct (Hne _ Hnil) |].
  rewrite Hdec, (decrypt_encrypt (plain u) (S k)) by done.
  rewrite Hplain.
  destruct (SplitN_plain _ _ pad Hse Hid) as (rest & ->).
  by rewrite !string_of_list_ascii_of_string, Hget.
Qed.

(** X17: credentials that fit in 8 bytes with their separator are not
    encrypted: the token is the encoding of the plain bytes, whatever the
    cipher. *)
Theorem MakeUserToken_short u :
  (length (list_ascii_of_string (ID u)) + 1
     + length (list_ascii_of_string (Session u)) <= 8)%nat ->
  MakeUserToken (Some u) = EncodeToString (plain u) /\
  length (plain u) = 8%nat.
Proof.
  intros Hshort.
  assert (length (plain u) = 8%nat) as Hlen.
  { unfold plain. cbv zeta.
    set (l0 := (length (list_ascii_of_string (ID u)) + 1
                + length (list_ascii_of_string (Session u)))%nat) in *.
    assert ((l0 + 7) / 8 * 8 = 8)%nat as Hq.
    { pose proof (Nat.div_mod_eq (l0 + 7) 8).
      pose proof (Nat.mod_upper_bound (l0 + 7) 8 ltac:(lia)). lia. }
    destruct (plain_eq u) as (k & pad & _ & Hl & _). unfold plain in Hl.
    cbv zeta in Hl. fold l0 in Hl.
    unfold copy in *. rewrite !length_app, !length_take, !length_drop in *.
    rewrite !length_app, !length_take, !length_drop, !length_replicate in *.
    rewrite Hq in *. lia. }
  split; [| done]. unfold MakeUserToken. rewrite Hlen. cbn [encrypt_from].
  by rewrite Hlen.
Qed.

End WithEnv.

Lemma token_env_cipher_ok : @cipher_ok token_env.
Proof.
  split; [cbn; lia |]. intros b Hb.
  split; [exact (eq_trans (length_reverse b) Hb) | exact (reverse_involutive b)].
Qed.

Lemma token_env_encoding_ok : @encoding_ok token_env.
Proof.
  split; cbn.
  - intros x. by rewrite list_ascii_of_string_of_list_ascii.
  - by intros [| c x].
Qed.

Lemma GetUserByToken_MakeUserToken_witness :
  @GetUserByToken token_env (@MakeUserToken token_env (Some alice)) = Ok alice.
Proof.
  apply (@GetUserByToken_MakeUserToken token_env alice alice
           token_env_cipher_ok token_env_encoding_ok);
    [| | reflexivity]; apply (bool_decide_unpack _); by vm_compute.
Defined.

Lemma MakeUserToken_short_witness :
  @MakeUserToken token_env (Some short_user)
    = @EncodeToString token_env (plain short_user) /\
  length (plain short_user) = 8%nat.
Proof. apply (@MakeUserToken_short token_env short_user). cbn. lia. Defined.

End token_spec.

(** * Properties of the request guards *)

Module action_spec.
Import action fixture.

Lemma cooling_not_empty r : ("guard/cooling-down/" +:+ r +:+ "s")%string <> EmptyString.
Proof. done. Qed.

(** [checkIP] lets a request through when it comes from a moderator or
    when its address is not cooling down. *)
Lemma checkIP_empty g :
  checkIP g = EmptyString <->
  ip_ok g = true \/ exists u, user g = Some u /\ IsMod u = true.
Proof.
  unfold checkIP. split.
  - intros Hc. destruct (ip_ok g); [by left |]. right.
    destruct (user g) as [[[] b] |]; cbn in Hc; [eauto | done | done].
  - intros [Hi | (u & Hu & Hm)].
    + rewrite Hi. by destruct (user g) as [[[] ?] |].
    + by rewrite Hu, Hm.
Qed.

(** X18: [checkToken] lets a request through exactly when its token is
    live, its user (if any) is not banned, and it comes from a moderator
    or from an address that is not cooling down. *)
Theorem checkToken_passes g :
  checkToken g = EmptyString <->
  tokenok g = true /\
  (forall u, user g = Some u -> Banned u = false) /\
  (ip_ok g = true \/ exists u, user g = Some u /\ IsMod u = true).
Proof.
  unfold checkToken. rewrite <- checkIP_empty.
  destruct (String.eqb_spec (checkIP g) "") as [-> | Hne]; cbn [negb].
  - destruct (user g) as [[m b] |]; cbn; destruct (tokenok g); cbn.
    + destruct b; split; try done.
      * intros (_ & Hb & _). by specialize (Hb _ eq_refl).
      * intros _. split_and!; try done. by intros ? [= <-].
    + destruct b; split; try done. by intros [? _]. by intros [? _].
    + split; [| done]. intros _. by split_and!.
    + split; [done |]. by intros [? _].
  - split; [done |]. by intros (_ & _ & ?).
Qed.

(** Neither alphabet holds an upper-case letter: lowering a letter that
    was picked from one leaves it as it is. *)
Lemma lower_pick t :
  lower (pick alphabet1 t) = pick alphabet1 t /\
  lower (pick alphabet2 t) = pick alphabet2 t.
Proof.
  unfold pick.
  assert (N.to_nat (N_of_ascii t mod 31) < 31)%nat as Hk.
  { pose proof (N.mod_upper_bound (N_of_ascii t) 31). lia. }
  revert Hk. generalize (N.to_nat (N_of_ascii t mod 31)) as k. intros k Hk.
  do 31 (destruct k as [| k]; [by vm_compute |]). lia.
Qed.

Lemma lower_upper a : lower (upper a) = lower a.
Proof. by destruct a as [[] [] [] [] [] [] [] []]. Qed.

Lemma challenge_upper rest buf : forall i,
  challenge i (upper <$> rest) buf = challenge i rest buf.
Proof.
  induction rest as [| a rest IH]; intros i; [done |]. cbn [fmap list_fmap challenge].
  destruct (buf !! i) as [t |]; [| done]. rewrite lower_upper.
  case_match; [done |]. apply IH.
Qed.

(** X19: a captcha is accepted only from a request with a live token
    that is not held back by the cool-down, and only for an answer of
    four bytes. *)
Theorem checkCaptcha_passes_only g :
  checkCaptcha g = Some EmptyString ->
  tokenok g = true /\
  (ip_ok g = true \/ exists u, user g = Some u /\ IsMod u = true) /\
  String.length (answer g) = 4%nat.
Proof.
  unfold checkCaptcha. rewrite <- checkIP_empty.
  destruct (String.eqb_spec (checkIP g) "") as [-> | Hne]; cbn [negb].
  2:{ intros [= ?]. done. }
  destruct (tokenok g); cbn [negb]; [| done].
  destruct (Nat.eqb_spec (String.length (answer g)) 4) as [-> | Hl]; [done |].
  done.
Qed.

Lemma checkCaptcha_passes_only_witness :
  tokenok good_request = true /\
  (ip_ok good_request = true \/
   exists u, user good_request = Some u /\ IsMod u = true) /\
  String.length (answer good_request) = 4%nat.
Proof. apply (checkCaptcha_passes_only good_request). reflexivity. Defined.

(** X20: the answer that spells the first four bytes of the token in the
    first alphabet is accepted, in lower case as in upper case, from a
    request with a live token that is not held back by the cool-down. *)
Theorem checkCaptcha_expected_answer g t0 t1 t2 t3 rest :
  checkIP g = EmptyString -> tokenok g = true ->
  tokenbuf g = t0 :: t1 :: t2 :: t3 :: rest ->
  answer g = string_of_list_ascii
               [pick alphabet1 t0; pick alphabet1 t1;
                pick alphabet1 t2; pick alphabet1 t3] ->
  checkCaptcha g = Some EmptyString /\
  checkCaptcha (with_answer g (to_upper (answer g))) = Some EmptyString.
Proof.
  intros Hip Hok Hbuf Hans.
  assert (forall f, (forall a, lower (f a) = lower a) ->
            checkCaptcha (with_answer g (string_of_list_ascii
              (f <$> [pick alphabet1 t0; pick alphabet1 t1;
                      pick alphabet1 t2; pick alphabet1 t3])))
            = Some EmptyString) as Hgen.
  { intros f Hf. unfold checkCaptcha, checkIP in *. cbn [with_answer user ip_ok remain
      tokenok tokenbuf answer]. rewrite Hip, Hok, Hbuf. cbn [String.eqb negb].
    cbn [fmap list_fmap string_of_list_ascii String.length Nat.eqb list_ascii_of_string].
    cbn [challenge lookup list_lookup].
    rewrite !Hf.
    rewrite !(proj1 (lower_pick _)), !Ascii.eqb_refl. done. }
  split.
  - specialize (Hgen id (fun _ => eq_refl)). rewrite list_fmap_id, <- Hans in Hgen.
    by destruct g.
  - unfold to_upper. rewrite Hans, list_ascii_of_string_of_list_ascii.
    apply Hgen, lower_upper.
Qed.

Lemma checkCaptcha_expected_answer_witness :
  checkCaptcha good_request = Some EmptyString /\
  checkCaptcha (with_answer good_request (to_upper (answer good_request)))
    = Some EmptyString.
Proof.
  apply (checkCaptcha_expected_answer good_request
           (ascii_of_nat 0) (ascii_of_nat 10) (ascii_of_nat 31) (ascii_of_nat 41)
           [ascii_of_nat 200]); reflexivity.
Defined.

(** X21: the answer is read without regard to the case of its letters:
    the answer in upper case gets the verdict of the answer as typed. *)
Theorem checkCaptcha_ignores_case g :
  checkCaptcha (with_answer g (to_upper (answer g))) = checkCaptcha g.
Proof.
  unfold checkCaptcha, checkIP. cbn [with_answer user ip_ok remain tokenok tokenbuf answer].
  unfold to_upper. rewrite list_ascii_of_string_of_list_ascii, challenge_upper.
  replace (String.length (string_of_list_ascii (upper <$> list_ascii_of_string (answer g))))
    with (String.length (answer g)); [done |].
  generalize (answer g) as a. induction a as [| c a IH]; [done |].
  cbn. by rewrite IH.
Qed.

(** X22: the directory [writeImage] stores an image in depends on the
    length of the image text alone: its number is the size of the decoded
    image in KiB, modulo 1024, whatever the bytes of the image are. *)
Theorem writeImage_dir_by_size image :
  writeImage_dir image
  = (Z.of_nat (String.length (after_comma image)) / 4 * 3 / 1024) mod 1024.
Proof.
  unfold writeImage_dir, writeImage_hash. cbv zeta.
  generalize (tail_hash (after_comma image)) as h.
  generalize (Z.of_nat (String.length (after_comma image)) / 4 * 3 / 1024) as k.
  intros k h.
  change 1024 with (2 ^ 10). rewrite <- !Z.land_ones by lia.
  rewrite Z.land_lor_distr_l, <- !Z.land_assoc.
  change (Z.land 0xfffffffffffff000 (Z.ones 10)) with 0.
  change (Z.land 0xfff (Z.ones 10)) with (Z.ones 10).
  by rewrite Z.land_0_r, Z.lor_0_l.
Qed.

End action_spec.

(** * Properties of the goroutine of a follow *)

Module dal_goroutines.
Import mv dal fixture.

Section WithHelpers.
Context `{Helpers}.

Lemma Do_UpdateUser_frame id u s :
  db (snd (Do (DoUpdateUser id u) s)) = db s /\
  spawned (snd (Do (DoUpdateUser id u) s)) = spawned s /\
  (forall k, k <> id ->
     users (snd (Do (DoUpdateUser id u) s)) !! k = users s !! k) /\
  (forall x, users s !! id = Some x ->
     users (snd (Do (DoUpdateUser id u) s)) !! id = Some (update_user u x)).
Proof.
  unfold Do. destruct (users s !! id) as [x |] eqn:Hx; cbn.
  - split_and!; try done.
    + intros k Hk. by rewrite lookup_insert_ne.
    + intros y [= <-]. by rewrite lookup_insert_eq.
  - by split_and!.
Qed.




(** X25: the goroutine of a first follow puts the actor in the list of
    the followers of the target: when the target is registered and the
    store holds neither the followed node of the pair nor the root of the
    target's follower chain, [GetFollowingList] on that chain gives one
    entry, with the actor, the time the node was created at and the
    boolean of the follow as [RevFollowed], and no cursor to resume
    from. *)
Theorem run_goroutine_then_listed
    from to following created gid n since ticks s ut :
  strings.HasPrefix to "#" = false ->
  users s !! to = Some ut ->
  db s !! makeFollowedID to from = None ->
  db s !! NewID IDFollower to = None ->
  NewID IDFollower to <> makeFollowedID to from ->
  strings.HasPrefix (makeFollowedID to from) "u/" = true ->
  0 < n -> over_budget since = false ->
  GetFollowingList (NewID IDFollower to) "" n (since :: ticks)
    (run_goroutine (GoFollowUser from to following) created gid s)
  = ([ {| FID := from; Time := created; Followed := false;
          RevFollowed := following; Liked := false; Blocked := false |} ],
     EmptyString).
Proof.
  intros Htag Ht Hnode Hrootn Hne Hpre Hn Hbud.
  unfold run_goroutine. rewrite Htag. cbn [negb].
  destruct (Do_UpdateUser_frame from (IncDecFollowings following) s)
    as (Hdb1 & _ & Hfr1 & Hup1).
  set (s1 := snd (Do (DoUpdateUser from (IncDecFollowings following)) s)) in *.
  assert (is_Some (users s1 !! to)) as [ut1 Ht1].
  { destruct (decide (to = from)) as [-> | Hd].
    - rewrite (Hup1 _ Ht). eauto.
    - rewrite Hfr1 by done. eauto. }
  unfold fromFollowToNotifyTo.
  destruct (Do_UpdateUser_frame to (IncDecFollowers following) s1)
    as (Hdb2 & _ & _ & _).
  destruct (Do (DoUpdateUser to (IncDecFollowers following)) s1) as [r s2] eqn:Hdo.
  cbn [snd] in *.
  assert (exists x, r = Ok x) as [x ->].
  { unfold Do in Hdo. rewrite Ht1 in Hdo. injection Hdo as <- _. eauto. }
  assert (db s2 = db s) as Hdb by congruence.
  unfold insertChainOrUpdate, Do. rewrite Hdb, Hnode.
  rewrite decide_True by done. rewrite decide_False by done.
  cbn [ID]. rewrite !Hdb, Hnode, Hrootn. cbn [default snd err_of].
  unfold GetFollowingList, GetArticle, set_db. cbn [String.eqb db].
  rewrite lookup_insert_eq. cbn [NextID set_NextID new_root ID].
  cbn [walk length]. rewrite Hpre, Hbud.
  destruct (Z.ltb_spec (Z.of_nat 0) n); [| lia]. cbn [andb].
  unfold GetArticle. cbn [db].
  rewrite lookup_insert_ne, lookup_insert_eq by done.
  cbn [NextID set_NextID]. rewrite dal_walks.walk_no_prefix by done.
  unfold entries. cbn [Cmd_ set_NextID Extras]. rewrite decide_False by done.
  unfold extra, CmdFollowed. cbn [Extras CreateTime set_NextID].
  rewrite lookup_insert_eq. rewrite !lookup_insert_ne by done.
  rewrite lookup_singleton_eq. rewrite !lookup_singleton_ne by done.
  cbn [default]. by destruct following.
Qed.

End WithHelpers.



Lemma run_goroutine_then_listed_witness :
  @GetFollowingList helpers "follower:bob" "" 10 [0; 0]
    (@run_goroutine helpers (GoFollowUser "alice" "bob" true) at100 "g1" registered)
  = ([ {| FID := "alice"; Time := at100; Followed := false;
          RevFollowed := true; Liked := false; Blocked := false |} ],
     EmptyString).
Proof.
  apply (@run_goroutine_then_listed helpers "alice" "bob" true at100 "g1" 10 0 [0]
           registered {| UserID := "bob"; Followers := 7; Followings := 0; Unread := 0 |});
    by vm_compute.
Defined.

End dal_goroutines.
